(** * Autheliarr: the Wizarr -> Authelia user sync of [main.py]

    A shallow embedding of [AutheliarrSync] (validators, password
    generation, the reconciliation loop of [sync_users], the file and
    container adapters and the single-run driver) and the properties of
    the specification that were checked against it.

    Python objects live in an explicit object store: dicts and lists are
    heap cells, values refer to them by address, and the in-place
    updates of [sync_users] are in-place updates of that store.  The
    values are the ones a YAML document yields that matter here: None,
    bool, int, str, list and dict; usernames and emails are str, as
    annotated in the source.  A str is a [string] of its encoded
    characters: the validators accept ASCII characters only, and equality
    and containment of strings do not depend on how the others are
    encoded.  Calls that only write to the logs ([logger],
    [_log_password_securely]) are left out. *)

From Stdlib Require Import ZArith Ascii String Lia.
From stdpp Require Import base list strings.

Local Open Scope string_scope.
Local Open Scope list_scope.
#[local] Set Warnings "-register-all".

(** ** Regular expressions, as [re.match] runs them *)

Module Re.

(** The fragment of Python's [re] syntax used by [main.py]: anchors,
    literal characters and greedy bounded repetitions of a character
    class.  [Rep cls lo hi] is [[cls]{lo,hi}]; [+] is [{1,}]. *)
Inductive atom : Type :=
  | Bol                                              (* ^ *)
  | Eol                                              (* $ *)
  | Chr (c : ascii)                                  (* a literal character *)
  | Rep (cls : ascii -> bool) (lo : nat) (hi : option nat).

Definition regex := list atom.

Definition newline : ascii := "010"%char.

(** [$] without [re.MULTILINE]: at the end of the string, or just before
    a newline that is the last character of the string. *)
Definition at_eol (s : list ascii) : bool :=
  match s with
  | [] => true
  | [c] => Ascii.eqb c newline
  | _ => false
  end.

Definition below (hi : option nat) : bool :=
  match hi with
  | None => true
  | Some 0 => false
  | Some (S _) => true
  end.

Definition dec (hi : option nat) : option nat :=
  match hi with
  | None => None
  | Some n => Some (pred n)
  end.

(** Greedy repetition with backtracking: take one more character of the
    class while allowed, and fall back to the continuation [k] once at
    least [lo] characters were taken. *)
Fixpoint rep (cls : ascii -> bool) (k : nat -> list ascii -> bool)
    (lo : nat) (hi : option nat) (pos : nat) (s : list ascii) : bool :=
  match s with
  | c :: s' =>
      if cls c && below hi
      then rep cls k (pred lo) (dec hi) (S pos) s' || (Nat.eqb lo 0 && k pos s)
      else Nat.eqb lo 0 && k pos s
  | [] => Nat.eqb lo 0 && k pos s
  end.

(** Matching a sequence of atoms at position [pos], the rest of the
    subject being [s].  As with [re.match], the pattern need not consume
    the whole subject. *)
Fixpoint run (r : regex) (pos : nat) (s : list ascii) : bool :=
  match r with
  | [] => true
  | Bol :: r' => Nat.eqb pos 0 && run r' pos s
  | Eol :: r' => at_eol s && run r' pos s
  | Chr c :: r' =>
      match s with
      | a :: s' => Ascii.eqb a c && run r' (S pos) s'
      | [] => false
      end
  | Rep cls lo hi :: r' => rep cls (run r') lo hi pos s
  end.

(** [re.match(pattern, s) is not None] *)
Definition matches (r : regex) (s : string) : bool :=
  run r 0 (list_ascii_of_string s).

End Re.

(** ** Character classes *)

Definition in_range (lo hi c : ascii) : bool :=
  Nat.leb (nat_of_ascii lo) (nat_of_ascii c) && Nat.leb (nat_of_ascii c) (nat_of_ascii hi).

Definition is_lower (c : ascii) : bool := in_range "a"%char "z"%char c.
Definition is_upper (c : ascii) : bool := in_range "A"%char "Z"%char c.
Definition is_digit (c : ascii) : bool := in_range "0"%char "9"%char c.
Definition is_alpha (c : ascii) : bool := is_lower c || is_upper c.
Definition is_alnum (c : ascii) : bool := is_alpha c || is_digit c.

Definition one_of (cs : string) (c : ascii) : bool :=
  existsb (Ascii.eqb c) (list_ascii_of_string cs).

(** [[a-zA-Z0-9._-]] *)
Definition cls_username (c : ascii) : bool := is_alnum c || one_of "._-" c.
(** [[a-zA-Z0-9._%+-]] *)
Definition cls_local (c : ascii) : bool := is_alnum c || one_of "._%+-" c.
(** [[a-zA-Z0-9.-]] *)
Definition cls_domain (c : ascii) : bool := is_alnum c || one_of ".-" c.

(** ** The validators *)

(** [r'^[a-zA-Z0-9._%+-]+@[a-zA-Z0-9.-]+\.[a-zA-Z]{2,}$'] *)
Definition email_pattern : Re.regex :=
  [Re.Bol; Re.Rep cls_local 1 None; Re.Chr "@"%char; Re.Rep cls_domain 1 None;
   Re.Chr "."%char; Re.Rep is_alpha 2 None; Re.Eol].

(** [r'^[a-zA-Z0-9._-]{3,32}$'] *)
Definition username_pattern : Re.regex :=
  [Re.Bol; Re.Rep cls_username 3 (Some 32); Re.Eol].

Definition validate_email (email : string) : bool :=
  Re.matches email_pattern email.

Definition validate_username (username : string) : bool :=
  Re.matches username_pattern username.

(** ** Python values and the object store *)

(** Addresses of the store. *)
Abbreviation loc := nat (only parsing).

(** A Python value: a scalar, or the address of a dict or list. *)
Inductive pyval : Type :=
  | VNone
  | VBool (b : bool)
  | VInt (z : Z)
  | VStr (s : string)
  | VRef (l : loc).

Inductive pyobj : Type :=
  | ODict (items : list (pyval * pyval))       (* in insertion order *)
  | OList (items : list pyval).

(** The store: the object at address [l] is [h !! l]. *)
Abbreviation heap := (list pyobj) (only parsing).

Definition alloc (h : heap) (o : pyobj) : heap * loc := (h ++ [o], length h).

Inductive exn : Type := HashingError | AttributeError | TypeError | KeyError.

Inductive res (A : Type) : Type :=
  | Ok (a : A)
  | Raise (e : exn).
Arguments Ok {A} a.
Arguments Raise {A} e.

Definition bind {A B : Type} (c : res A) (k : A -> res B) : res B :=
  match c with
  | Ok a => k a
  | Raise e => Raise e
  end.

Notation "x <- c ;; k" := (bind c (fun x => k))
  (at level 100, c at next level, right associativity).

(** [v == s] for a str [s]: only an equal str is equal to it. *)
Definition str_eq (v : pyval) (s : string) : bool :=
  match v with
  | VStr s' => String.eqb s' s
  | _ => false
  end.

Fixpoint dict_find (k : string) (items : list (pyval * pyval)) : option pyval :=
  match items with
  | [] => None
  | (k', v) :: rest => if str_eq k' k then Some v else dict_find k rest
  end.

Definition dict_has (k : string) (items : list (pyval * pyval)) : bool :=
  match dict_find k items with
  | Some _ => true
  | None => false
  end.

(** [d[k] = v]: an existing key keeps its place, a new key goes last. *)
Fixpoint dict_set (k : string) (v : pyval) (items : list (pyval * pyval))
    : list (pyval * pyval) :=
  match items with
  | [] => [(VStr k, v)]
  | (k', v') :: rest =>
      if str_eq k' k then (k', v) :: rest else (k', v') :: dict_set k v rest
  end.

Fixpoint is_substring (p s : string) : bool :=
  String.prefix p s ||
  match s with
  | EmptyString => false
  | String _ s' => is_substring p s'
  end.

(** [k in c] for a str [k].  An address outside the store stands for an
    object of a type that is not modelled; it supports no operation. *)
Definition py_contains (h : heap) (c : pyval) (k : string) : res bool :=
  match c with
  | VStr s => Ok (is_substring k s)
  | VRef l =>
      match h !! l with
      | Some (ODict items) => Ok (dict_has k items)
      | Some (OList items) => Ok (existsb (fun v => str_eq v k) items)
      | None => Raise TypeError
      end
  | _ => Raise TypeError
  end.

(** [c[k]] for a str [k] *)
Definition py_getitem (h : heap) (c : pyval) (k : string) : res pyval :=
  match c with
  | VRef l =>
      match h !! l with
      | Some (ODict items) =>
          match dict_find k items with
          | Some v => Ok v
          | None => Raise KeyError
          end
      | _ => Raise TypeError
      end
  | _ => Raise TypeError
  end.

(** [c.get(k, default)] *)
Definition py_get (h : heap) (c : pyval) (k : string) (default : pyval) : res pyval :=
  match c with
  | VRef l =>
      match h !! l with
      | Some (ODict items) =>
          match dict_find k items with
          | Some v => Ok v
          | None => Ok default
          end
      | _ => Raise AttributeError
      end
  | _ => Raise AttributeError
  end.

(** [c[k] = v] for a str [k] *)
Definition py_setitem (h : heap) (c : pyval) (k : string) (v : pyval) : res heap :=
  match c with
  | VRef l =>
      match h !! l with
      | Some (ODict items) => Ok (<[l := ODict (dict_set k v items)]> h)
      | _ => Raise TypeError
      end
  | _ => Raise TypeError
  end.

(** Truth value of [v] *)
Definition truthy (h : heap) (v : pyval) : bool :=
  match v with
  | VNone => false
  | VBool b => b
  | VInt z => negb (Z.eqb z 0)
  | VStr s => negb (String.eqb s "")
  | VRef l =>
      match h !! l with
      | Some (ODict []) | Some (OList []) => false
      | _ => true
      end
  end.

(** The content of a value, read through the store down to [fuel]
    levels of containers. *)
Inductive tree : Type :=
  | TNone
  | TBool (b : bool)
  | TInt (z : Z)
  | TStr (s : string)
  | TList (ts : list tree)
  | TDict (kvs : list (tree * tree))
  | TDeep.

Fixpoint reify (fuel : nat) (h : heap) (v : pyval) : tree :=
  match v with
  | VNone => TNone
  | VBool b => TBool b
  | VInt z => TInt z
  | VStr s => TStr s
  | VRef l =>
      match fuel with
      | 0 => TDeep
      | S f =>
          match h !! l with
          | Some (ODict items) =>
              TDict (map (fun kv => (reify f h (fst kv), reify f h (snd kv))) items)
          | Some (OList items) => TList (map (reify f h) items)
          | None => TDeep
          end
      end
  end.

(** The addresses [reify] reads. *)
Fixpoint visited (fuel : nat) (h : heap) (v : pyval) : list loc :=
  match v with
  | VRef l =>
      match fuel with
      | 0 => []
      | S f =>
          l :: match h !! l with
               | Some (ODict items) =>
                   flat_map (fun kv => visited f h (fst kv) ++ visited f h (snd kv)) items
               | Some (OList items) => flat_map (visited f h) items
               | None => []
               end
      end
  | _ => []
  end.

(** ** Passwords *)

(** [str.title()] on ASCII text: the first cased character of every run
    of letters is upper-cased, the others lower-cased.  Every username
    that passes [validate_username] is ASCII. *)
Definition to_upper (c : ascii) : ascii :=
  if is_lower c then ascii_of_nat (nat_of_ascii c - 32) else c.
Definition to_lower (c : ascii) : ascii :=
  if is_upper c then ascii_of_nat (nat_of_ascii c + 32) else c.

Fixpoint title_from (previous_is_cased : bool) (s : string) : string :=
  match s with
  | EmptyString => EmptyString
  | String c s' =>
      String (if previous_is_cased then to_lower c else to_upper c)
             (title_from (is_alpha c) s')
  end.

Definition title (s : string) : string := title_from false s.

(** [string.ascii_letters + string.digits + "!@#$%^&*"] *)
Definition alphabet : string :=
  "abcdefghijklmnopqrstuvwxyzABCDEFGHIJKLMNOPQRSTUVWXYZ0123456789!@#$%^&*".

(** How [subprocess.run(['docker', 'restart', ...], timeout=30)] ends. *)
Inductive docker_result : Type :=
  | DockerExit (returncode : Z)
  | DockerTimeout
  | DockerFailure.

(** The users file, as [load_authelia_users] sees it.  A file that
    parses is given by the object graph [yaml.safe_load] builds for it:
    one object per anchored node, every alias of the node referring to
    that same object.  [yaml.dump] writes a graph back with its sharing
    (as anchors and aliases). *)
Inductive file_state : Type :=
  | FMissing
  | FUnreadable                         (* open or read raises *)
  | FMalformed                          (* yaml.safe_load raises *)
  | FParsed (h : heap) (data : pyval).  (* yaml.safe_load returns data *)

(** What the outside answers during one pass: the operating system's
    random source (read draw by draw), the Argon2id primitive ([None]
    when it raises [HashingError]), the outcome of writing the users
    file ([Some f] when the write raises and leaves the file as [f]) and
    of [docker restart]. *)
Record env : Type := {
  entropy : nat -> nat;
  argon2id : string -> list nat -> option string;
  write_failure : option file_state;
  docker : docker_result
}.

(** [secrets.choice(seq)] on the draw [r] *)
Definition choice (seq : string) (r : nat) : ascii :=
  nth (r mod String.length seq) (list_ascii_of_string seq) " "%char.

(** Returns the password and the position of the next unread draw. *)
Definition generate_password (e : env) (length : nat) (cursor : nat) : string * nat :=
  let length := if Nat.ltb length 8 then 8 else length in
  (string_of_list_ascii
     (map (fun i => choice alphabet (entropy e i)) (seq cursor length)),
   cursor + length).

(** [PasswordHasher(memory_cost=65536, time_cost=3, parallelism=4,
    hash_len=32, salt_len=16).hash(password)]: a fresh 16-byte salt,
    then the primitive, which returns the encoded hash; [Argon2Error] is
    re-raised.  Returns the hash and the position of the next draw. *)
Definition hash_password (e : env) (password : string) (cursor : nat)
    : res (string * nat) :=
  let salt := map (fun i => entropy e i mod 256) (seq cursor 16) in
  match argon2id e password salt with
  | Some encoded => Ok (encoded, cursor + 16)
  | None => Raise HashingError
  end.

(** ** Configuration and the persistent world *)

(** The environment variables that decide behaviour.  Paths and the
    container name only say which file, database and container the
    [world] below stands for. *)
Record config : Type := {
  default_group : string;
  dry_run : bool;
  restart_authelia : bool;
  sync_interval : Z
}.

Inductive db_state : Type :=
  | DbMissing
  | DbError                                         (* sqlite3 raises *)
  | DbRows (rows : list (string * option string)).  (* table user: username, email *)

(** What persists between passes: the Wizarr database, the Authelia
    users file, and how often a write of the file and a restart of the
    container were attempted. *)
Record world : Type := {
  wizarr_db : db_state;
  users_file : file_state;
  writes : nat;
  restarts : nat
}.

(** ** Adapters *)

(** [SELECT username, email FROM user WHERE email IS NOT NULL] *)
Definition get_wizarr_users (w : world) : list (string * string) :=
  match wizarr_db w with
  | DbMissing => []
  | DbError => []
  | DbRows rows =>
      flat_map (fun row => match snd row with
                           | Some email => [(fst row, email)]
                           | None => []
                           end) rows
  end.

(** [{'users': {}}], built in the store [h] *)
Definition empty_store (h : heap) : heap * pyval :=
  let '(h1, users) := alloc h (ODict []) in
  let '(h2, data) := alloc h1 (ODict [(VStr "users", VRef users)]) in
  (h2, VRef data).

Definition load_authelia_users (w : world) : heap * pyval :=
  match users_file w with
  | FMissing => empty_store []
  | FUnreadable => empty_store []
  | FMalformed => empty_store []
  | FParsed h data => if truthy h data then (h, data) else empty_store h
  end.

(** Returns [True]/[False] and the world after the attempt. *)
Definition restart_authelia_container (cfg : config) (e : env) (w : world)
    : bool * world :=
  if dry_run cfg then (true, w)
  else if negb (restart_authelia cfg) then (true, w)
  else
    let w' := {| wizarr_db := wizarr_db w; users_file := users_file w;
                 writes := writes w; restarts := S (restarts w) |} in
    match docker e with
    | DockerExit returncode => (Z.eqb returncode 0, w')
    | DockerTimeout => (false, w')
    | DockerFailure => (false, w')
    end.

(** [yaml.dump] stores the object graph under [users_data]; an error
    while writing is caught and logged. *)
Definition save_authelia_users (cfg : config) (e : env) (h : heap)
    (users_data : pyval) (w : world) : world :=
  if dry_run cfg then w
  else
    {| wizarr_db := wizarr_db w;
       users_file := match write_failure e with
                     | None => FParsed h users_data
                     | Some left_as => left_as
                     end;
       writes := S (writes w);
       restarts := restarts w |}.

(** ** The pass *)

(** What changes in the loop of [sync_users]: the objects, the two
    counters, and the position of the next unread random draw. *)
Record st : Type := {
  st_heap : heap;
  new_users : nat;
  updated_users : nat;
  cursor : nat
}.

(** The body of [for wizarr_user in wizarr_users]. *)
Definition sync_one (cfg : config) (e : env) (authelia_users : pyval)
    (wizarr_user : string * string) (s : st) : res st :=
  let username := fst wizarr_user in
  let email := snd wizarr_user in
  if negb (validate_username username) then Ok s
  else if negb (validate_email email) then Ok s
  else
    present <- py_contains (st_heap s) authelia_users username ;;
    if (present : bool) then
      record <- py_getitem (st_heap s) authelia_users username ;;
      current_email <- py_get (st_heap s) record "email" (VStr "") ;;
      if negb (str_eq current_email email) then
        record <- py_getitem (st_heap s) authelia_users username ;;
        h <- py_setitem (st_heap s) record "email" (VStr email) ;;
        Ok {| st_heap := h; new_users := new_users s;
              updated_users := updated_users s + 1; cursor := cursor s |}
      else Ok s
    else
      let '(password, c1) := generate_password e 16 (cursor s) in
      hashed <- hash_password e password c1 ;;
      let '(password_hash, c2) := (hashed : string * nat) in
      let '(h1, groups) := alloc (st_heap s) (OList [VStr (default_group cfg)]) in
      let '(h2, record) :=
        alloc h1 (ODict [(VStr "displayname", VStr (title username));
                         (VStr "password", VStr password_hash);
                         (VStr "email", VStr email);
                         (VStr "groups", VRef groups)]) in
      h3 <- py_setitem h2 authelia_users username (VRef record) ;;
      Ok {| st_heap := h3; new_users := new_users s + 1;
            updated_users := updated_users s; cursor := c2 |}.

Fixpoint sync_loop (cfg : config) (e : env) (authelia_users : pyval)
    (wizarr_users : list (string * string)) (s : st) : res st :=
  match wizarr_users with
  | [] => Ok s
  | wizarr_user :: rest =>
      s' <- sync_one cfg e authelia_users wizarr_user s ;;
      sync_loop cfg e authelia_users rest s'
  end.

(** How a pass that returns ended. *)
Inductive report : Type :=
  | NothingToSync
  | NoChanges
  | Synced (created updated : nat) (restarted : bool).

(** [sync_users] from the loaded document on. *)
Definition sync_loaded (cfg : config) (e : env) (w : world)
    (loaded : heap * pyval) : res report * world :=
  let wizarr_users := get_wizarr_users w in
  let '(h0, authelia_data) := loaded in
  let '(h1, default) := alloc h0 (ODict []) in
  match py_get h1 authelia_data "users" (VRef default) with
  | Raise x => (Raise x, w)
  | Ok authelia_users =>
      match wizarr_users with
      | [] => (Ok NothingToSync, w)
      | _ :: _ =>
          match sync_loop cfg e authelia_users wizarr_users
                  {| st_heap := h1; new_users := 0; updated_users := 0; cursor := 0 |} with
          | Raise x => (Raise x, w)
          | Ok s =>
              if Nat.ltb 0 (new_users s) || Nat.ltb 0 (updated_users s) then
                match py_setitem (st_heap s) authelia_data "users" authelia_users with
                | Raise x => (Raise x, w)
                | Ok h =>
                    let w1 := save_authelia_users cfg e h authelia_data w in
                    let '(ok, w2) := restart_authelia_container cfg e w1 in
                    (Ok (Synced (new_users s) (updated_users s) ok), w2)
                end
              else (Ok NoChanges, w)
          end
      end
  end.

Definition sync_users (cfg : config) (e : env) (w : world) : res report * world :=
  sync_loaded cfg e w (load_authelia_users w).

(** The single-run branch of [main] ([SYNC_INTERVAL] not positive):
    the exit status of the process and the world it leaves. *)
Definition main_once (cfg : config) (e : env) (w : world) : Z * world :=
  match sync_users cfg e w with
  | (Ok _, w') => (0%Z, w')
  | (Raise _, w') => (1%Z, w')
  end.

(** ** Start-up, the password log and the periodic driver *)

(** [os.getenv(name, default)] over the process environment. *)
Definition getenv (environ : string -> option string) (name default : string)
    : string :=
  match environ name with
  | Some v => v
  | None => default
  end.

(** [str.lower()], on the ASCII letters.  It is only compared with
    ['true'], which no other character lower-cases into. *)
Fixpoint lower (s : string) : string :=
  match s with
  | EmptyString => EmptyString
  | String c s' => String (to_lower c) (lower s')
  end.

(** [AutheliarrSync.__init__]: the fields of [config], read from the
    environment.  [int_of] is Python's [int] on a str, [None] where it
    raises [ValueError]; the constructor then raises too. *)
Definition init (environ : string -> option string)
    (int_of : string -> option Z) : option config :=
  match int_of (getenv environ "SYNC_INTERVAL" "0") with
  | None => None
  | Some interval =>
      Some {| default_group := getenv environ "DEFAULT_GROUP" "plex_users";
              dry_run := String.eqb (lower (getenv environ "DRY_RUN" "false")) "true";
              restart_authelia :=
                String.eqb (lower (getenv environ "RESTART_AUTHELIA" "true")) "true";
              sync_interval := interval |}
  end.

(** ['*' * n] *)
Definition stars (n : nat) : string := string_of_list_ascii (repeat "*"%char n).

(** The obfuscated form [_log_password_securely] writes to the main log:
    [password[:2] + '*' * (len(password) - 4) + password[-2:]] for more
    than 6 characters, all stars otherwise. *)
Definition obfuscate (password : string) : string :=
  if Nat.ltb 6 (String.length password) then
    (String.substring 0 2 password
     ++ stars (String.length password - 4)
     ++ String.substring (String.length password - 2) 2 password)%string
  else stars (String.length password).

Inductive level : Type := DEBUG | INFO | WARNING | ERROR.

(** [_log_password_securely]: the records it sends to the main logger
    and the messages it sends to the secure logger.  [secure] is
    [secure_handler and secure_logger.handlers], [secure_log_path] the
    value of [SECURE_LOG_PATH]. *)
Definition log_password_securely (secure : bool) (secure_log_path : string)
    (username password : string) : list (level * string) * list string :=
  let obfuscated := obfuscate password in
  let first :=
    (WARNING, ("Generated password for " ++ username ++ ": " ++ obfuscated)%string) in
  if secure then
    ([first;
      (INFO, ("Full password for " ++ username ++ " written to secure log: "
              ++ secure_log_path)%string)],
     [("User: " ++ username ++ " | Password: " ++ password)%string])
  else
    ([first;
      (WARNING, "Secure log not configured. Full password not logged anywhere.");
      (WARNING, "To access full passwords, mount a secure log file with SECURE_LOG_PATH environment variable");
      (WARNING, ("Generated password for " ++ username
                 ++ " must be manually provided to user")%string)],
     []).

(** The body of the loop again, now with the call of
    [_log_password_securely] it makes: the result of the step and the
    [(username, password)] the call is made with, if it is made. *)
Definition sync_one_logged (cfg : config) (e : env) (authelia_users : pyval)
    (wizarr_user : string * string) (s : st) : res st * list (string * string) :=
  let username := fst wizarr_user in
  let email := snd wizarr_user in
  if negb (validate_username username) then (Ok s, [])
  else if negb (validate_email email) then (Ok s, [])
  else
    match py_contains (st_heap s) authelia_users username with
    | Raise x => (Raise x, [])
    | Ok true =>
        (record <- py_getitem (st_heap s) authelia_users username ;;
         current_email <- py_get (st_heap s) record "email" (VStr "") ;;
         if negb (str_eq current_email email) then
           record <- py_getitem (st_heap s) authelia_users username ;;
           h <- py_setitem (st_heap s) record "email" (VStr email) ;;
           Ok {| st_heap := h; new_users := new_users s;
                 updated_users := updated_users s + 1; cursor := cursor s |}
         else Ok s,
         [])
    | Ok false =>
        let '(password, c1) := generate_password e 16 (cursor s) in
        match hash_password e password c1 with
        | Raise x => (Raise x, [])
        | Ok (password_hash, c2) =>
            let '(h1, groups) := alloc (st_heap s) (OList [VStr (default_group cfg)]) in
            let '(h2, record) :=
              alloc h1 (ODict [(VStr "displayname", VStr (title username));
                               (VStr "password", VStr password_hash);
                               (VStr "email", VStr email);
                               (VStr "groups", VRef groups)]) in
            match py_setitem h2 authelia_users username (VRef record) with
            | Raise x => (Raise x, [])
            | Ok h3 =>
                (Ok {| st_heap := h3; new_users := new_users s + 1;
                       updated_users := updated_users s; cursor := c2 |},
                 [(username, password)])
            end
        end
    end.

(** The loop with the calls it makes, those made before an exception
    included. *)
Fixpoint sync_loop_logged (cfg : config) (e : env) (authelia_users : pyval)
    (wizarr_users : list (string * string)) (s : st)
    : res st * list (string * string) :=
  match wizarr_users with
  | [] => (Ok s, [])
  | wizarr_user :: rest =>
      match sync_one_logged cfg e authelia_users wizarr_user s with
      | (Ok s', calls) =>
          let '(r, later) := sync_loop_logged cfg e authelia_users rest s' in
          (r, calls ++ later)
      | (Raise x, calls) => (Raise x, calls)
      end
  end.

(** The periodic branch of [main] ([SYNC_INTERVAL] positive), for the
    passes that the environments [envs] answer, no interrupt arriving:
    the exit status if the process exited, and the world after these
    passes. *)
Fixpoint periodic (cfg : config) (envs : list env) (w : world) : option Z * world :=
  match envs with
  | [] => (None, w)
  | e :: rest =>
      match sync_users cfg e w with
      | (Ok _, w') =>
          if Z.ltb 0 (sync_interval cfg) then periodic cfg rest w'
          else (Some 0%Z, w')
      | (Raise _, w') =>
          if Z.ltb 0 (sync_interval cfg) then periodic cfg rest w'
          else (Some 1%Z, w')
      end
  end.

(** [main] after start-up: [e] answers the first pass, [later] the
    passes after it. *)
Definition main (cfg : config) (e : env) (later : list env) (w : world)
    : option Z * world :=
  if Z.ltb 0 (sync_interval cfg) then periodic cfg (e :: later) w
  else
    let '(status, w') := main_once cfg e w in
    (Some status, w').

(** * Vocabulary of the properties *)

(** [n] respects the upper bound of a repetition. *)
Definition within (n : nat) (hi : option nat) : Prop :=
  match hi with
  | None => True
  | Some m => n <= m
  end.

(** Every character of [s] is in the class. *)
Definition all_in (cls : ascii -> bool) (s : list ascii) : Prop :=
  Forall (fun c => cls c = true) s.

(** The language of [^[a-zA-Z0-9._-]{3,32}$] read as "the whole string". *)
Definition username_ok (s : list ascii) : Prop :=
  3 <= length s <= 32 /\ all_in cls_username s.

(** The shape [local@domain.tld]. *)
Definition email_ok (s : list ascii) : Prop :=
  exists l d t,
    s = l ++ "@"%char :: d ++ "."%char :: t /\
    1 <= length l /\ all_in cls_local l /\
    1 <= length d /\ all_in cls_domain d /\
    2 <= length t /\ all_in is_alpha t.

(** The text after the last dot. *)
Fixpoint last_label (s : list ascii) : list ascii :=
  match s with
  | [] => []
  | c :: s' => if existsb (Ascii.eqb "."%char) s' then last_label s'
               else if Ascii.eqb c "."%char then s' else c :: s'
  end.

(** The plaintext generated for a new user when the next unread draw is
    [c], and the salt drawn for hashing it. *)
Definition password_at (e : env) (c : nat) : string :=
  fst (generate_password e 16 c).

(** The 16 salt bytes, drawn right after the 16 password characters. *)
Definition salt_at (e : env) (c : nat) : list nat :=
  map (fun i => entropy e i mod 256) (seq (c + 16) 16).

(** The same two values written out draw by draw, as the properties
    state them: the [k]-th character of the plaintext is the character of
    the 70-character alphabet at index [draw (c + k) mod 70], for the 16
    draws from [c] on; the [k]-th salt byte is [draw (c + 16 + k) mod 256],
    for the 16 draws after those. *)
Definition drawn_password (draws : nat -> nat) (c : nat) : string :=
  string_of_list_ascii
    (map (fun k =>
            nth (draws (c + k) mod 70)
                (list_ascii_of_string
                   "abcdefghijklmnopqrstuvwxyzABCDEFGHIJKLMNOPQRSTUVWXYZ0123456789!@#$%^&*")
                " "%char)
         (seq 0 16)).


(** The record built for a new user; the plaintext is not among its
    ingredients. *)
Definition new_record (username password_hash email : string) (groups : loc) : pyobj :=
  ODict [(VStr "displayname", VStr (title username));
         (VStr "password", VStr password_hash);
         (VStr "email", VStr email);
         (VStr "groups", VRef groups)].

(** [record.get('email', '')] *)
Definition stored_email (ritems : list (pyval * pyval)) : pyval :=
  match dict_find "email" ritems with
  | Some v => v
  | None => VStr ""
  end.



(** The source users that pass both validators. *)
Definition valid_user (x : string * string) : bool :=
  validate_username (fst x) && validate_email (snd x).

(** Objects never change kind: a dict of the store is still a dict after
    an item assignment, a step, a run. *)
Definition keeps_dicts (h h' : list pyobj) : Prop :=
  forall l items, h !! l = Some (ODict items) ->
                  exists items', h' !! l = Some (ODict items').

(** The state in which the loop of [sync_users] starts. *)
Definition start (h : list pyobj) : st :=
  {| st_heap := h; new_users := 0; updated_users := 0; cursor := 0 |}.

(** The loaded document is a mapping. *)
Definition is_mapping (loaded : list pyobj * pyval) : Prop :=
  exists D ditems, snd loaded = VRef D /\ fst loaded !! D = Some (ODict ditems).

(** The addresses a dict's values refer to. *)
Definition refs_of (items : list (pyval * pyval)) : list nat :=
  flat_map (fun kv => match snd kv with VRef r => [r] | _ => [] end) items.

(** The records of the mapping at [U] are separate objects of the store:
    no two entries share one, and none is the mapping itself. *)
Definition separate (h : list pyobj) (U : nat) (uitems : list (pyval * pyval)) : Prop :=
  NoDup (refs_of uitems) /\ (U ∉ refs_of uitems) /\
  Forall (fun r => r < length h) (refs_of uitems).

(** The state after the email of the record at [r] was overwritten. *)
Definition updated_state (s : st) (r : nat) (ritems : list (pyval * pyval))
    (em : string) : st :=
  {| st_heap := <[r := ODict (dict_set "email" (VStr em) ritems)]> (st_heap s);
     new_users := new_users s;
     updated_users := updated_users s + 1;
     cursor := cursor s |}.

(** The state after a user was created: the groups list and the record
    are allocated, then the mapping at [U] gets the new key. *)
Definition created_state (cfg : config) (s : st) (U : nat)
    (uitems : list (pyval * pyval)) (u em encoded : string) : st :=
  {| st_heap :=
       <[U := ODict (uitems ++ [(VStr u, VRef (S (length (st_heap s))))])]>
         ((st_heap s ++ [OList [VStr (default_group cfg)]])
            ++ [new_record u encoded em (length (st_heap s))]);
     new_users := new_users s + 1;
     updated_users := updated_users s;
     cursor := cursor s + 16 + 16 |}.

(** The target holds a record for the source user with that email. *)
Definition in_sync (h : list pyobj) (uitems : list (pyval * pyval))
    (x : string * string) : Prop :=
  exists r ritems,
    dict_find (fst x) uitems = Some (VRef r) /\
    h !! r = Some (ODict ritems) /\
    stored_email ritems = VStr (snd x).

(** Valid source entries with the same username carry the same email. *)
Definition consistent (src : list (string * string)) : Prop :=
  forall u e1 e2,
    In (u, e1) src -> In (u, e2) src ->
    valid_user (u, e1) = true -> valid_user (u, e2) = true -> e1 = e2.

(** The mapping at [U] has exactly the keys [ks], each bound to a record
    that is a dict of its own, and as many users were created. *)
Definition good (s : st) (U : nat) (ks : list string) : Prop :=
  exists uitems,
    st_heap s !! U = Some (ODict uitems) /\
    map fst uitems = map VStr ks /\
    NoDup ks /\
    Forall (fun v => exists r ritems,
              v = VRef r /\ r <> U /\ st_heap s !! r = Some (ODict ritems))
           (map snd uitems) /\
    new_users s = length ks.

(** The entry [kv] of a users mapping in the store [h] binds a username
    to a record as the sync creates it from [src]: an object of its own
    (at an address from [base] on) with the four fields of line 232-237,
    the display name being the titled username, the password an encoding
    the Argon2id primitive returned, the email that of a valid source
    entry with this username, and the groups a list of its own holding
    the default group only. *)
Definition made_for (cfg : config) (e : env) (src : list (string * string))
    (h : list pyobj) (base : nat) (kv : pyval * pyval) : Prop :=
  exists u r em encoded g,
    kv = (VStr u, VRef r) /\
    base <= r /\ base <= g /\
    h !! r = Some (new_record u encoded em g) /\
    h !! g = Some (OList [VStr (default_group cfg)]) /\
    In (u, em) src /\ valid_user (u, em) = true /\
    (exists pw salt, argon2id e pw salt = Some encoded).

(** During a loop that started with an empty mapping at [U]: the object
    at [D] is still [d], and every entry of the mapping is a record made
    for a source user, no two entries sharing one. *)
Definition fresh_records (cfg : config) (e : env) (src : list (string * string))
    (U D : nat) (d : pyobj) (base : nat) (s : st) : Prop :=
  base <= length (st_heap s) /\
  st_heap s !! D = Some d /\
  exists uitems,
    st_heap s !! U = Some (ODict uitems) /\
    NoDup (refs_of uitems) /\
    Forall (made_for cfg e src (st_heap s) base) uitems.

(** The users file is the document [{'users': m}] in which the mapping
    [m] has exactly the valid usernames of [src] as keys, each once and
    each bound to a record made for it. *)
Definition holds_created (cfg : config) (e : env) (src : list (string * string))
    (f : file_state) : Prop :=
  exists h uitems ks,
    f = FParsed h (VRef 1) /\
    h !! 1 = Some (ODict [(VStr "users", VRef 0)]) /\
    h !! 0 = Some (ODict uitems) /\
    map fst uitems = map VStr ks /\
    NoDup ks /\
    (forall u, u ∈ ks <-> u ∈ map fst (List.filter valid_user src)) /\
    Forall (made_for cfg e src h 3) uitems.

(** The number of created users a pass reports. *)
Definition created_of (r : report) : nat :=
  match r with
  | Synced created _ _ => created
  | _ => 0
  end.

(** The usernames of the valid source users, each once. *)
Definition valid_usernames (src : list (string * string)) : list string :=
  remove_dups (map fst (List.filter valid_user src)).

(** During the loop over the mapping at [U], whose records in the
    starting store [h0] are at [refs0], every other object of [h0] stays
    as it is. *)
Definition framed (h0 : list pyobj) (U : nat) (refs0 : list nat) (s : st) : Prop :=
  length h0 <= length (st_heap s) /\
  (exists uitems,
     st_heap s !! U = Some (ODict uitems) /\
     forall r, r ∈ refs_of uitems -> r ∈ refs0 \/ length h0 <= r) /\
  forall l, l < length h0 -> l <> U -> l ∉ refs0 -> st_heap s !! l = h0 !! l.

(** Between the stores [h] and [h'], the object at [l] changed at most
    in this way: a list not at all, a dict only under its key [email],
    and then to the email of a valid entry of [src]. *)
Definition only_email (src : list (string * string)) (h h' : list pyobj)
    (l : nat) : Prop :=
  match h !! l with
  | Some (ODict items) =>
      exists items',
        h' !! l = Some (ODict items') /\
        (forall k, k <> "email" -> dict_find k items' = dict_find k items) /\
        (dict_find "email" items' = dict_find "email" items \/
         exists u em, In (u, em) src /\ valid_user (u, em) = true /\
                      dict_find "email" items' = Some (VStr em))
  | Some (OList items) => h' !! l = Some (OList items)
  | None => True
  end.

(** The entries [added] were appended for users created from [src] in a
    run that started in the store [h] with the mapping items [uitems]:
    each binds a valid source username, not a key before, to a record
    allocated during the run, and no username is bound twice. *)
Definition appended (src : list (string * string)) (h : list pyobj)
    (uitems added : list (pyval * pyval)) : Prop :=
  NoDup (map fst added) /\
  Forall (fun kv => exists u r,
            kv = (VStr u, VRef r) /\
            In u (map fst (List.filter valid_user src)) /\
            dict_find u uitems = None /\
            length h <= r) added.

(** What [sync_users] does once it found changes: save the document,
    then restart the container. *)
Definition save_and_restart (cfg : config) (e : env) (h : list pyobj)
    (data : pyval) (w : world) : bool * world :=
  restart_authelia_container cfg e (save_authelia_users cfg e h data w).

(** [result.returncode == 0], [False] on a timeout or another error. *)
Definition docker_ok (e : env) : bool :=
  match docker e with
  | DockerExit returncode => Z.eqb returncode 0
  | _ => false
  end.

(** ** Sample inputs *)

(** An encoded hash of the shape the configured hasher returns. *)
Definition sample_hash : string :=
  "$argon2id$v=19$m=65536,t=3,p=4$c2FsdHNhbHRzYWx0c2FsdA$aGFzaGhhc2hoYXNoaGFzaGhhc2hoYXNoaGFzaGhhc2g".

(** The default configuration. *)
Definition sample_cfg : config :=
  {| default_group := "plex_users"; dry_run := false;
     restart_authelia := true; sync_interval := 0 |}.

(** A stand-in for the outside: the draws count up, hashing succeeds. *)
Definition sample_env : env :=
  {| entropy := fun i => i;
     argon2id := fun _ _ => Some sample_hash;
     write_failure := None;
     docker := DockerExit 0 |}.

(** The same, but the primitive works for the first new user only. *)
Definition failing_env : env :=
  {| entropy := fun i => i;
     argon2id := fun _ salt => match salt with
                               | 16 :: _ => Some sample_hash
                               | _ => None
                               end;
     write_failure := None;
     docker := DockerExit 0 |}.

(** A record as the sync creates it, its groups list at address 2. *)
Definition bob_record (em : string) : pyobj :=
  ODict [(VStr "displayname", VStr "Bob"); (VStr "password", VStr sample_hash);
         (VStr "email", VStr em); (VStr "groups", VRef 2)].

(** [{'bob': {..., 'email': em, 'groups': ['plex_users']}}] at address 0 *)
Definition bob_store (em : string) : list pyobj :=
  [ODict [(VStr "bob", VRef 1)]; bob_record em; OList [VStr "plex_users"]].

(** A world with the given rows of table [user] and users file. *)
Definition world_of (rows : list (string * option string)) (f : file_state) : world :=
  {| wizarr_db := DbRows rows; users_file := f; writes := 0; restarts := 0 |}.

(** The content under a top-level key of the users file. *)
Definition file_key (k : string) (f : file_state) : option tree :=
  match f with
  | FParsed h (VRef D) =>
      match h !! D with
      | Some (ODict items) =>
          match dict_find k items with
          | Some v => Some (reify 4 h v)
          | None => None
          end
      | _ => None
      end
  | _ => None
  end.

(** A users file in which [backup] is a YAML alias of the users mapping:
    [users: &u {bob: {email: old@x.com}}] and [backup: *u]. *)
Definition aliased_file : file_state :=
  FParsed [ODict [(VStr "users", VRef 1); (VStr "backup", VRef 1)];
           ODict [(VStr "bob", VRef 2)];
           ODict [(VStr "email", VStr "old@x.com")]]
          (VRef 0).

(** The same users file with [backup] a mapping of its own. *)
Definition unaliased_file : file_state :=
  FParsed [ODict [(VStr "users", VRef 1); (VStr "backup", VRef 3)];
           ODict [(VStr "bob", VRef 2)];
           ODict [(VStr "email", VStr "old@x.com")];
           ODict [(VStr "bob", VStr "kept")]]
          (VRef 0).

(** A users file in which bob's record is the document itself:
    [&d {users: {bob: *d}, email: keep}]. *)
Definition cyclic_file : file_state :=
  FParsed [ODict [(VStr "users", VRef 1); (VStr "email", VStr "keep")];
           ODict [(VStr "bob", VRef 0)]]
          (VRef 0).

(** A users file [{users: {bob: <record with email em>}}]: the document
    at address 3, the users mapping at 0. *)
Definition bob_file (em : string) : file_state :=
  FParsed (bob_store em ++ [ODict [(VStr "users", VRef 0)]]) (VRef 3).

(** An environment that sets [DRY_RUN] to [True] and nothing else. *)
Definition dry_environ (name : string) : option string :=
  if String.eqb name "DRY_RUN" then Some "True" else None.

(** A stand-in for [int]: it knows the default ["0"]. *)
Definition sample_int (s : string) : option Z :=
  if String.eqb s "0" then Some 0%Z else None.

(** * Properties *)

(** ** Regular expressions *)

Module ReFacts.
Import Re.

(** A repetition matches exactly when some admissible number of leading
    class characters can be taken so that the continuation matches. *)
Lemma rep_spec cls k s :
  forall lo hi pos,
    rep cls k lo hi pos s = true <->
    exists n, lo <= n /\ within n hi /\ n <= length s /\
              Forall (fun c => cls c = true) (take n s) /\
              k (pos + n) (drop n s) = true.
Proof.
  induction s as [|c s IH]; intros lo hi pos; simpl.
  - rewrite andb_true_iff, Nat.eqb_eq. split.
    + intros [-> Hk]. exists 0. rewrite Nat.add_0_r. simpl.
      repeat split; try lia; try constructor; try assumption.
      destruct hi; simpl; lia.
    + intros (n & Hlo & _ & Hn & _ & Hk).
      assert (n = 0) as -> by lia. rewrite Nat.add_0_r in Hk. simpl in Hk.
      split; [lia | assumption].
  - assert (Hzero : Nat.eqb lo 0 && k pos (c :: s) = true ->
              exists n, lo <= n /\ within n hi /\ n <= S (length s) /\
                Forall (fun c => cls c = true) (take n (c :: s)) /\
                k (pos + n) (drop n (c :: s)) = true).
    { rewrite andb_true_iff, Nat.eqb_eq. intros [-> Hk]. exists 0.
      rewrite Nat.add_0_r. simpl. repeat split; try lia; try constructor; try assumption.
      destruct hi; simpl; lia. }
    destruct (cls c && below hi) eqn:Hc.
    + apply andb_true_iff in Hc as [Hc Hb].
      rewrite orb_true_iff, IH. split.
      * intros [(n & Hlo & Hhi & Hn & Hall & Hk) | H0]; [| auto].
        exists (S n). simpl. rewrite Nat.add_succ_r. repeat split; try lia.
        -- destruct hi as [[|m]|]; simpl in *; try discriminate; lia.
        -- constructor; assumption.
        -- assumption.
      * intros ([|n] & Hlo & Hhi & Hn & Hall & Hk).
        -- right. rewrite Nat.add_0_r in Hk. simpl in Hk.
           rewrite andb_true_iff, Nat.eqb_eq. split; [lia | assumption].
        -- left. exists n. simpl in Hall, Hk. rewrite Nat.add_succ_r in Hk.
           inversion Hall; subst. repeat split; try lia; try assumption.
           destruct hi as [m|]; simpl in *; lia.
    + split; [auto |].
      intros ([|n] & Hlo & Hhi & Hn & Hall & Hk).
      * rewrite Nat.add_0_r in Hk. simpl in Hk.
        rewrite andb_true_iff, Nat.eqb_eq. split; [lia | assumption].
      * simpl in Hall. inversion Hall; subst.
        apply andb_false_iff in Hc as [Hc | Hc]; [congruence |].
        destruct hi as [[|m]|]; simpl in *; try discriminate; lia.
Qed.

Lemma at_eol_spec s : at_eol s = true <-> s = [] \/ s = [newline].
Proof.
  destruct s as [|c [|d s]]; simpl.
  - intuition.
  - split.
    + intros H. right. f_equal. apply Ascii.eqb_eq. assumption.
    + intros [H | H]; [discriminate |]. inversion H. apply Ascii.eqb_refl.
  - split; [discriminate |]. intros [H | H]; discriminate.
Qed.

End ReFacts.

(** ** The validators *)

Module Validators.
Import Re ReFacts.

Lemma run_username s :
  run username_pattern 0 s = rep cls_username (fun _ r => at_eol r && true) 3 (Some 32) 0 s.
Proof. reflexivity. Qed.

Lemma split_at_eol (n : nat) (s : list ascii) :
  n <= length s -> at_eol (drop n s) = true ->
  (s = take n s /\ length s = n) \/ (s = take n s ++ [newline] /\ length (take n s) = n).
Proof.
  intros Hn H. apply at_eol_spec in H.
  pose proof (take_drop n s) as Hs. pose proof (length_drop s n) as Hd.
  destruct H as [H | H]; rewrite H in Hs, Hd; simpl in Hd.
  - left. rewrite app_nil_r in Hs. split; [congruence | lia].
  - right. split; [congruence |]. rewrite length_take. lia.
Qed.

(** What [validate_username] accepts: the usernames of the format rule,
    and those followed by one newline. *)
Lemma validate_username_iff u :
  validate_username u = true <->
  username_ok (list_ascii_of_string u) \/
  exists s0, list_ascii_of_string u = s0 ++ [newline] /\ username_ok s0.
Proof.
  unfold validate_username, matches. set (s := list_ascii_of_string u).
  rewrite run_username, rep_spec. split.
  - intros (n & Hlo & Hhi & Hn & Hall & Hk). simpl in Hhi.
    apply andb_true_iff in Hk as [Hk _].
    destruct (split_at_eol n s Hn Hk) as [[Hs Hl] | [Hs Hl]].
    + left. split; [lia |]. rewrite Hs. exact Hall.
    + right. exists (take n s). split; [exact Hs |]. split; [lia | exact Hall].
  - intros [[Hlen Hall] | (s0 & Hs & Hlen & Hall)].
    + exists (length s). simpl. rewrite firstn_all, skipn_all.
      repeat split; try lia; assumption.
    + exists (length s0). rewrite Hs, take_app_length, drop_app_length. simpl.
      rewrite length_app. simpl.
      repeat split; try lia; assumption.
Qed.

(** Every username of the format rule is accepted. *)
Lemma validate_username_accepts u :
  username_ok (list_ascii_of_string u) -> validate_username u = true.
Proof. intros H. apply validate_username_iff. left. exact H. Qed.

Lemma all_in_app cls s1 s2 : all_in cls (s1 ++ s2) <-> all_in cls s1 /\ all_in cls s2.
Proof. apply Forall_app. Qed.

(** Without a trailing newline, the rule is exact. *)
Lemma validate_username_exact u :
  ~ In newline (list_ascii_of_string u) ->
  (validate_username u = true <-> username_ok (list_ascii_of_string u)).
Proof.
  intros Hnl. rewrite validate_username_iff. split; [| auto].
  intros [H | (s0 & Hs & _)]; [exact H |].
  exfalso. apply Hnl. rewrite Hs. apply in_or_app. right. left. reflexivity.
Qed.

Lemma run_chr c r pos s :
  run (Chr c :: r) pos s =
  match s with
  | a :: s' => Ascii.eqb a c && run r (S pos) s'
  | [] => false
  end.
Proof. reflexivity. Qed.

Lemma run_rep cls lo hi r pos s :
  run (Rep cls lo hi :: r) pos s = rep cls (run r) lo hi pos s.
Proof. reflexivity. Qed.

Lemma run_email s :
  run email_pattern 0 s =
  rep cls_local
    (run [Chr "@"%char; Rep cls_domain 1 None; Chr "."%char; Rep is_alpha 2 None; Eol])
    1 None 0 s.
Proof. reflexivity. Qed.

Lemma chr_step c r pos s :
  run (Chr c :: r) pos s = true -> exists s', s = c :: s' /\ run r (S pos) s' = true.
Proof.
  rewrite run_chr. destruct s as [|a s']; [discriminate |].
  intros H. apply andb_true_iff in H as [Ha Hr]. apply Ascii.eqb_eq in Ha.
  subst a. eauto.
Qed.

(** What [validate_email] accepts: the addresses of shape
    [local@domain.tld], and those followed by one newline. *)
Lemma validate_email_iff e :
  validate_email e = true <->
  email_ok (list_ascii_of_string e) \/
  exists s0, list_ascii_of_string e = s0 ++ [newline] /\ email_ok s0.
Proof.
  unfold validate_email, matches. set (s := list_ascii_of_string e).
  rewrite run_email, rep_spec. split.
  - intros (n1 & Hl1 & _ & Hn1 & Hall1 & Hk1).
    apply chr_step in Hk1 as (r1 & Hr1 & Hk1).
    rewrite run_rep, rep_spec in Hk1.
    destruct Hk1 as (n2 & Hl2 & _ & Hn2 & Hall2 & Hk2).
    apply chr_step in Hk2 as (r2 & Hr2 & Hk2).
    rewrite run_rep, rep_spec in Hk2.
    destruct Hk2 as (n3 & Hl3 & _ & Hn3 & Hall3 & Hk3).
    simpl in Hk3. apply andb_true_iff in Hk3 as [Hk3 _].
    assert (Hs : s = take n1 s ++ "@"%char :: take n2 r1 ++ "."%char :: r2).
    { rewrite <- Hr2, (take_drop n2 r1), <- Hr1. symmetry. apply take_drop. }
    assert (Hlen1 : length (take n1 s) = n1) by (rewrite length_take; lia).
    assert (Hlen2 : length (take n2 r1) = n2) by (rewrite length_take; lia).
    destruct (split_at_eol n3 r2 Hn3 Hk3) as [[Ht Hlen3] | [Ht Hlen3]].
    + left. exists (take n1 s), (take n2 r1), r2.
      split; [exact Hs |]. rewrite Hlen1, Hlen2.
      repeat split; try lia; try assumption. rewrite Ht. exact Hall3.
    + right. exists (take n1 s ++ "@"%char :: take n2 r1 ++ "."%char :: take n3 r2).
      split.
      * rewrite Hs at 1. rewrite Ht at 1.
        rewrite <- !app_assoc. simpl. rewrite <- !app_assoc. reflexivity.
      * exists (take n1 s), (take n2 r1), (take n3 r2).
        rewrite Hlen1, Hlen2, Hlen3.
        repeat split; try lia; assumption.
  - assert (Hshape : forall l d t tail,
              1 <= length l -> all_in cls_local l ->
              1 <= length d -> all_in cls_domain d ->
              2 <= length t -> all_in is_alpha t ->
              at_eol tail = true ->
              exists n, 1 <= n /\ within n None /\
                n <= length (l ++ "@"%char :: d ++ "."%char :: t ++ tail) /\
                Forall (fun c => cls_local c = true)
                  (take n (l ++ "@"%char :: d ++ "."%char :: t ++ tail)) /\
                run [Chr "@"%char; Rep cls_domain 1 None; Chr "."%char;
                     Rep is_alpha 2 None; Eol] (0 + n)
                  (drop n (l ++ "@"%char :: d ++ "."%char :: t ++ tail)) = true).
    { intros l d t tail Hl Hal Hd Had Ht Hat Htail.
      exists (length l). rewrite take_app_length, drop_app_length, length_app.
      repeat split; try lia; try assumption.
      rewrite run_chr, Ascii.eqb_refl, andb_true_l, run_rep, rep_spec.
      exists (length d). rewrite take_app_length, drop_app_length, length_app.
      repeat split; try lia; try assumption.
      rewrite run_chr, Ascii.eqb_refl, andb_true_l, run_rep, rep_spec.
      exists (length t). rewrite take_app_length, drop_app_length, length_app.
      repeat split; try lia; try assumption.
      simpl. rewrite Htail. reflexivity. }
    intros [(l & d & t & Hs & Hl & Hal & Hd & Had & Ht & Hat)
           | (s0 & Hs0 & l & d & t & Hs & Hl & Hal & Hd & Had & Ht & Hat)].
    + rewrite Hs. rewrite <- (app_nil_r t). apply Hshape; auto.
    + rewrite Hs0, Hs. rewrite <- !app_assoc. simpl. rewrite <- !app_assoc. simpl.
      apply Hshape; auto.
Qed.

(** Every address of shape [local@domain.tld] is accepted. *)
Lemma validate_email_accepts e :
  email_ok (list_ascii_of_string e) -> validate_email e = true.
Proof. intros H. apply validate_email_iff. left. exact H. Qed.

Lemma email_ok_nonempty s : email_ok s -> s <> [].
Proof.
  intros (l & d & t & Hs & Hl & _) ->. destruct l; simpl in *; [lia | discriminate].
Qed.

(** An accepted address is not the empty string. *)
Lemma validate_email_nonempty e : validate_email e = true -> e <> "".
Proof.
  intros H ->. apply validate_email_iff in H. simpl in H.
  destruct H as [H | (s0 & Hs & _)].
  - exact (email_ok_nonempty _ H eq_refl).
  - destruct s0; discriminate.
Qed.

(** A string without [@] is rejected. *)
Lemma validate_email_needs_at e :
  ~ In "@"%char (list_ascii_of_string e) -> validate_email e = false.
Proof.
  intros Hno. destruct (validate_email e) eqn:H; [| reflexivity].
  exfalso. apply Hno. apply validate_email_iff in H.
  destruct H as [(l & d & t & Hs & _) | (s0 & Hs0 & l & d & t & Hs & _)].
  - rewrite Hs. apply in_or_app. right. left. reflexivity.
  - rewrite Hs0, Hs. apply in_or_app. left. apply in_or_app. right. left. reflexivity.
Qed.

(** Without a trailing newline, the shape is exact. *)
Lemma validate_email_exact e :
  ~ In newline (list_ascii_of_string e) ->
  (validate_email e = true <-> email_ok (list_ascii_of_string e)).
Proof.
  intros Hnl. rewrite validate_email_iff. split; [| auto].
  intros [H | (s0 & Hs & _)]; [exact H |].
  exfalso. apply Hnl. rewrite Hs. apply in_or_app. right. left. reflexivity.
Qed.

Lemma all_in_not_in cls c s : cls c = false -> all_in cls s -> ~ In c s.
Proof.
  intros Hc Hall Hin. unfold all_in in Hall. rewrite Forall_forall in Hall.
  apply list_elem_of_In in Hin. apply Hall in Hin. congruence.
Qed.

(** Two ways of cutting a list at an occurrence of [a]. *)
Lemma cut_twice (a : ascii) l r l' r' :
  l ++ a :: r = l' ++ a :: r' ->
  r = r' \/ In a l' \/ In a r'.
Proof.
  intros H. apply app_eq_app in H as [m [[Hl Hr] | [Hl Hr]]].
  - destruct m as [|b m]; simpl in Hr.
    + left. congruence.
    + right. right. injection Hr as Ha Hr'. rewrite Hr'.
      apply in_or_app. right. left. reflexivity.
  - destruct m as [|b m]; simpl in Hr.
    + left. congruence.
    + right. left. injection Hr as Ha Hr'. rewrite Hl, <- Ha.
      apply in_or_app. right. left. reflexivity.
Qed.

(** A string with no dot after an [@] is rejected. *)
Lemma validate_email_needs_domain_dot e l r :
  list_ascii_of_string e = l ++ "@"%char :: r ->
  ~ In "."%char r ->
  validate_email e = false.
Proof.
  intros Hs Hno. destruct (validate_email e) eqn:H; [| reflexivity].
  exfalso. apply validate_email_iff in H.
  assert (Hshape : exists l' d t tail,
            list_ascii_of_string e = l' ++ "@"%char :: (d ++ "."%char :: t ++ tail) /\
            all_in cls_local l' /\ all_in cls_domain d /\ all_in is_alpha t /\
            (tail = [] \/ tail = [newline])).
  { destruct H as [(l' & d & t & He & _ & Hl & _ & Hd & _ & Ht)
                  | (s0 & Hs0 & l' & d & t & He & _ & Hl & _ & Hd & _ & Ht)].
    - exists l', d, t, []. rewrite app_nil_r. repeat split; auto.
    - exists l', d, t, [newline]. rewrite Hs0, He. rewrite <- !app_assoc. simpl.
      rewrite <- !app_assoc. simpl. repeat split; auto. }
  destruct Hshape as (l' & d & t & tail & He & Hl & Hd & Ht & Htail).
  rewrite Hs in He. apply cut_twice in He as [Hr | [Hin | Hin]].
  - apply Hno. rewrite Hr. apply in_or_app. right. left. reflexivity.
  - exact (all_in_not_in cls_local "@"%char l' eq_refl Hl Hin).
  - apply in_app_or in Hin as [Hin | [Hin | Hin]].
    + exact (all_in_not_in cls_domain "@"%char d eq_refl Hd Hin).
    + discriminate Hin.
    + apply in_app_or in Hin as [Hin | Hin].
      * exact (all_in_not_in is_alpha "@"%char t eq_refl Ht Hin).
      * destruct Htail as [-> | ->]; simpl in Hin; [exact Hin |].
        destruct Hin as [Hin | []]. discriminate Hin.
Qed.

End Validators.

(** ** Dicts and the store *)

Module Store.

Lemma str_eq_true v s : str_eq v s = true <-> v = VStr s.
Proof.
  destruct v; simpl; try (split; [discriminate | intros H; discriminate H]).
  rewrite String.eqb_eq. split; [intros ->; reflexivity | intros H; inversion H; reflexivity].
Qed.

Lemma str_eq_refl s : str_eq (VStr s) s = true.
Proof. apply str_eq_true. reflexivity. Qed.

Lemma str_eq_other v s s' : s <> s' -> str_eq v s = true -> str_eq v s' = false.
Proof.
  intros Hne H. apply str_eq_true in H. subst v. simpl.
  apply String.eqb_neq. exact Hne.
Qed.

Lemma dict_find_set_eq k v items : dict_find k (dict_set k v items) = Some v.
Proof.
  induction items as [|[k' v'] items IH]; simpl.
  - rewrite String.eqb_refl. reflexivity.
  - destruct (str_eq k' k) eqn:Hk; simpl; rewrite Hk; [reflexivity | exact IH].
Qed.

Lemma dict_find_set_ne k k' v items :
  k <> k' -> dict_find k' (dict_set k v items) = dict_find k' items.
Proof.
  intros Hne. induction items as [|[k0 v0] items IH]; simpl.
  - apply String.eqb_neq in Hne. rewrite Hne. reflexivity.
  - destruct (str_eq k0 k) eqn:Hk; simpl.
    + rewrite (str_eq_other _ _ _ Hne Hk). reflexivity.
    + rewrite IH. reflexivity.
Qed.

(** Setting a key that is absent appends it. *)
Lemma dict_set_absent k v items :
  dict_find k items = None -> dict_set k v items = items ++ [(VStr k, v)].
Proof.
  induction items as [|[k0 v0] items IH]; simpl; [reflexivity |].
  destruct (str_eq k0 k); [discriminate |]. intros H. rewrite (IH H). reflexivity.
Qed.

(** Storing the value a key already has changes nothing. *)
Lemma dict_set_same k v items :
  dict_find k items = Some v -> dict_set k v items = items.
Proof.
  induction items as [|[k0 v0] items IH]; simpl; [discriminate |].
  destruct (str_eq k0 k); intros H.
  - inversion H. reflexivity.
  - rewrite (IH H). reflexivity.
Qed.

Lemma lookup_alloc_old (h : heap) o l : l < length h -> (h ++ [o]) !! l = h !! l.
Proof. intros H. apply lookup_app_l. exact H. Qed.

Lemma lookup_alloc_new (h : heap) o : (h ++ [o]) !! length h = Some o.
Proof. apply list_lookup_middle. reflexivity. Qed.

Lemma lookup_in_store (h : heap) l o : h !! l = Some o -> l < length h.
Proof. apply lookup_lt_Some. Qed.

(** Restarting the container does not touch the users file. *)
Lemma restart_keeps_file cfg e w :
  users_file (snd (restart_authelia_container cfg e w)) = users_file w.
Proof.
  unfold restart_authelia_container.
  destruct (dry_run cfg); [reflexivity |].
  destruct (restart_authelia cfg); cbn [negb]; [| reflexivity].
  destruct (docker e); reflexivity.
Qed.

End Store.

(** ** One source user *)

Module Step.
Import Store.

Lemma sync_one_invalid_username cfg e au u em s :
  validate_username u = false -> sync_one cfg e au (u, em) s = Ok s.
Proof. intros H. unfold sync_one. cbn [fst snd]. rewrite H. reflexivity. Qed.

Lemma sync_one_invalid_email cfg e au u em s :
  validate_email em = false -> sync_one cfg e au (u, em) s = Ok s.
Proof.
  intros H. unfold sync_one. cbn [fst snd]. rewrite H.
  destruct (validate_username u); reflexivity.
Qed.

Section ExistingUser.
Variables (cfg : config) (e : env) (s : st).
Variables (U r : loc) (uitems ritems : list (pyval * pyval)) (u em : string).
Hypothesis Hu : validate_username u = true.
Hypothesis Hem : validate_email em = true.
Hypothesis HU : st_heap s !! U = Some (ODict uitems).
Hypothesis Hrec : dict_find u uitems = Some (VRef r).
Hypothesis Hr : st_heap s !! r = Some (ODict ritems).

Lemma sync_one_update :
  str_eq (stored_email ritems) em = false ->
  sync_one cfg e (VRef U) (u, em) s =
  Ok {| st_heap := <[r := ODict (dict_set "email" (VStr em) ritems)]> (st_heap s);
        new_users := new_users s;
        updated_users := updated_users s + 1;
        cursor := cursor s |}.
Proof using Hu Hem HU Hrec Hr.
  intros Hne. unfold sync_one. cbn [fst snd]. rewrite Hu, Hem. cbn [negb].
  unfold py_contains, py_getitem, dict_has. rewrite HU, Hrec. cbn [bind].
  unfold py_get, py_setitem. rewrite Hr. fold (stored_email ritems).
  unfold stored_email in *. destruct (dict_find "email" ritems);
    cbn [bind]; rewrite Hne; reflexivity.
Qed.

Lemma sync_one_keep :
  str_eq (stored_email ritems) em = true ->
  sync_one cfg e (VRef U) (u, em) s = Ok s.
Proof using Hu Hem HU Hrec Hr.
  intros Heq. unfold sync_one. cbn [fst snd]. rewrite Hu, Hem. cbn [negb].
  unfold py_contains, py_getitem, dict_has. rewrite HU, Hrec. cbn [bind].
  unfold py_get. rewrite Hr.
  unfold stored_email in *. destruct (dict_find "email" ritems);
    cbn [bind]; rewrite Heq; reflexivity.
Qed.
End ExistingUser.

Section NewUser.
Variables (cfg : config) (e : env) (s : st).
Variables (U : loc) (uitems : list (pyval * pyval)) (u em : string).
Hypothesis Hu : validate_username u = true.
Hypothesis Hem : validate_email em = true.
Hypothesis HU : st_heap s !! U = Some (ODict uitems).
Hypothesis Habs : dict_find u uitems = None.

Lemma sync_one_create encoded :
  argon2id e (password_at e (cursor s)) (salt_at e (cursor s)) = Some encoded ->
  sync_one cfg e (VRef U) (u, em) s =
  Ok {| st_heap :=
          <[U := ODict (uitems ++ [(VStr u, VRef (S (length (st_heap s))))])]>
            ((st_heap s ++ [OList [VStr (default_group cfg)]])
               ++ [new_record u encoded em (length (st_heap s))]);
        new_users := new_users s + 1;
        updated_users := updated_users s;
        cursor := cursor s + 16 + 16 |}.
Proof using Hu Hem HU Habs.
  intros Hh. unfold sync_one. cbn [fst snd]. rewrite Hu, Hem. cbn [negb].
  unfold py_contains, dict_has. rewrite HU, Habs. cbn [bind].
  change (generate_password e 16 (cursor s))
    with (password_at e (cursor s), cursor s + 16).
  cbv beta iota. unfold hash_password. fold (salt_at e (cursor s)). rewrite Hh. cbn [bind alloc].
  unfold py_setitem. pose proof (lookup_in_store _ _ _ HU) as HUlt.
  rewrite !lookup_app_l by (rewrite ?length_app; simpl; lia).
  rewrite HU. cbn [bind]. rewrite (dict_set_absent _ _ _ Habs).
  rewrite length_app. simpl length. rewrite Nat.add_1_r. reflexivity.
Qed.

Lemma sync_one_hash_error :
  argon2id e (password_at e (cursor s)) (salt_at e (cursor s)) = None ->
  sync_one cfg e (VRef U) (u, em) s = Raise HashingError.
Proof using Hu Hem HU Habs.
  intros Hh. unfold sync_one. cbn [fst snd]. rewrite Hu, Hem. cbn [negb].
  unfold py_contains, dict_has. rewrite HU, Habs. cbn [bind].
  change (generate_password e 16 (cursor s))
    with (password_at e (cursor s), cursor s + 16).
  cbv beta iota. unfold hash_password. fold (salt_at e (cursor s)). rewrite Hh. reflexivity.
Qed.
End NewUser.

End Step.

(** ** Existing users: only the email may change *)

Module Existing.
Import Store Step.

(** C2. When the target already holds a record for a valid source
    user, a pass step never creates; if the stored email differs from the
    source email it overwrites the email field and nothing else (every
    other field of the record keeps its value, every other object of the
    store, the groups list among them, is untouched) and counts one
    update; if the stored email is the source email the state is left as
    it was. *)
Theorem existing_user_email_only cfg e s U r uitems ritems u em :
  validate_username u = true ->
  validate_email em = true ->
  st_heap s !! U = Some (ODict uitems) ->
  dict_find u uitems = Some (VRef r) ->
  st_heap s !! r = Some (ODict ritems) ->
  exists s',
    sync_one cfg e (VRef U) (u, em) s = Ok s' /\
    new_users s' = new_users s /\
    (str_eq (stored_email ritems) em = false ->
       updated_users s' = updated_users s + 1 /\
       exists ritems',
         st_heap s' !! r = Some (ODict ritems') /\
         dict_find "email" ritems' = Some (VStr em) /\
         (forall k, k <> "email" -> dict_find k ritems' = dict_find k ritems) /\
         (forall l, l <> r -> st_heap s' !! l = st_heap s !! l)) /\
    (str_eq (stored_email ritems) em = true -> s' = s).
Proof.
  intros Hu Hem HU Hrec Hr.
  destruct (str_eq (stored_email ritems) em) eqn:Hcmp.
  - exists s. rewrite (sync_one_keep cfg e s U r uitems ritems u em) by assumption.
    repeat split; try (intros; reflexivity); discriminate.
  - eexists. rewrite (sync_one_update cfg e s U r uitems ritems u em) by assumption.
    split; [reflexivity |]. split; [reflexivity |]. split; [| discriminate].
    intros _. split; [reflexivity |]. cbn [st_heap].
    exists (dict_set "email" (VStr em) ritems). split; [| split; [| split]].
    + apply list_lookup_insert_eq. eapply lookup_in_store. exact Hr.
    + apply dict_find_set_eq.
    + intros k Hk. apply dict_find_set_ne. congruence.
    + intros l Hl. apply list_lookup_insert_ne. congruence.
Qed.

(** C8. A record without an email field is read as having the email
    [''], which no valid source email equals: the step appends the email
    field with the source value and counts one update. *)
Theorem missing_email_is_updated cfg e s U r uitems ritems u em :
  validate_username u = true ->
  validate_email em = true ->
  st_heap s !! U = Some (ODict uitems) ->
  dict_find u uitems = Some (VRef r) ->
  st_heap s !! r = Some (ODict ritems) ->
  dict_find "email" ritems = None ->
  stored_email ritems = VStr "" /\
  sync_one cfg e (VRef U) (u, em) s =
  Ok {| st_heap := <[r := ODict (ritems ++ [(VStr "email", VStr em)])]> (st_heap s);
        new_users := new_users s;
        updated_users := updated_users s + 1;
        cursor := cursor s |}.
Proof.
  intros Hu Hem HU Hrec Hr Hnone.
  assert (Hs : stored_email ritems = VStr "") by (unfold stored_email; rewrite Hnone; reflexivity).
  split; [exact Hs |].
  rewrite (sync_one_update cfg e s U r uitems ritems u em); try assumption.
  - rewrite (dict_set_absent _ _ _ Hnone). reflexivity.
  - rewrite Hs. unfold str_eq. apply String.eqb_neq. intros Heq.
    apply (Validators.validate_email_nonempty em Hem). symmetry. exact Heq.
Qed.

End Existing.

(** ** New users *)

Module Creation.
Import Store Step.






Lemma map_seq_from {A : Type} (g : nat -> A) (c n : nat) :
  map g (seq c n) = map (fun k => g (c + k)) (seq 0 n).
Proof.
  revert c. induction n as [|n IH]; intros c; [reflexivity |].
  cbn [seq map]. rewrite Nat.add_0_r. f_equal.
  rewrite (IH (S c)), <- seq_shift, map_map.
  apply map_ext. intros k. f_equal. lia.
Qed.

Lemma password_at_drawn e c : password_at e c = drawn_password (entropy e) c.
Proof.
  unfold password_at, generate_password, drawn_password. cbn [fst Nat.ltb Nat.leb].
  rewrite map_seq_from. reflexivity.
Qed.



(** The same at the level of a whole pass: with no usable users file,
    the file written holds alice's record and nothing else, and in
    particular not the plaintext. *)
Lemma first_pass_writes_alice cfg e w encoded :
  users_file w = FMissing \/ users_file w = FUnreadable \/ users_file w = FMalformed ->
  get_wizarr_users w = [("alice", "alice@example.com")] ->
  argon2id e (password_at e 0) (salt_at e 0) = Some encoded ->
  dry_run cfg = false ->
  write_failure e = None ->
  exists h' w' ok,
    sync_users cfg e w = (Ok (Synced 1 0 ok), w') /\
    users_file w' = FParsed h' (VRef 1) /\
    reify 4 h' (VRef 1) =
      TDict [(TStr "users",
              TDict [(TStr "alice",
                      TDict [(TStr "displayname", TStr "Alice");
                             (TStr "password", TStr encoded);
                             (TStr "email", TStr "alice@example.com");
                             (TStr "groups", TList [TStr (default_group cfg)])])])].
Proof.
  intros Hfile Hsrc Hhash Hdry Hwrite.
  assert (Hload : load_authelia_users w = empty_store []).
  { unfold load_authelia_users. destruct Hfile as [-> | [-> | ->]]; reflexivity. }
  unfold sync_users. rewrite Hload. unfold sync_loaded, empty_store.
  cbn [alloc app length]. rewrite Hsrc.
  change (py_get [ODict []; ODict [(VStr "users", VRef 0)]; ODict []]
            (VRef 1) "users" (VRef 2)) with (@Ok pyval (VRef 0)).
  cbv beta iota. cbn [sync_loop].
  set (s0 := {| st_heap := [ODict []; ODict [(VStr "users", VRef 0)]; ODict []];
                new_users := 0; updated_users := 0; cursor := 0 |}).
  rewrite (sync_one_create cfg e s0 0 [] "alice" "alice@example.com"
             eq_refl eq_refl eq_refl eq_refl encoded Hhash).
  cbn [bind st_heap new_users updated_users s0 Nat.add Nat.ltb Nat.leb orb].
  unfold py_setitem.
  cbn [app length lookup list_lookup insert list_insert].
  unfold save_authelia_users. rewrite Hdry, Hwrite.
  match goal with
  | |- context [restart_authelia_container cfg e ?w1] =>
      pose proof (restart_keeps_file cfg e w1) as Hkeep;
      destruct (restart_authelia_container cfg e w1) as [ok w2]
  end.
  cbn [snd users_file] in Hkeep.
  eexists _, w2, ok. split; [reflexivity |]. split; [exact Hkeep |].
  reflexivity.
Qed.

End Creation.

(** ** The loop *)

Module Loop.
Import Store Step.

Lemma sync_loop_app cfg e au l1 l2 s :
  sync_loop cfg e au (l1 ++ l2) s =
  (s' <- sync_loop cfg e au l1 s ;; sync_loop cfg e au l2 s').
Proof.
  revert s. induction l1 as [|x l1 IH]; intros s; simpl; [reflexivity |].
  destruct (sync_one cfg e au x s); simpl; [apply IH | reflexivity].
Qed.

Lemma sync_one_invalid cfg e au x s :
  valid_user x = false -> sync_one cfg e au x s = Ok s.
Proof.
  destruct x as [u em]. unfold valid_user. cbn [fst snd]. intros H.
  apply andb_false_iff in H as [H | H].
  - apply sync_one_invalid_username. exact H.
  - apply sync_one_invalid_email. exact H.
Qed.

(** Hashing fails for a new user, whatever the target mapping is. *)
Lemma sync_one_new_hash_error cfg e au u em s :
  validate_username u = true ->
  validate_email em = true ->
  py_contains (st_heap s) au u = Ok false ->
  argon2id e (password_at e (cursor s)) (salt_at e (cursor s)) = None ->
  sync_one cfg e au (u, em) s = Raise HashingError.
Proof.
  intros Hu Hem Hc Hh. unfold sync_one. cbn [fst snd]. rewrite Hu, Hem, Hc. cbn [negb bind].
  change (generate_password e 16 (cursor s))
    with (password_at e (cursor s), cursor s + 16).
  cbv beta iota. unfold hash_password. fold (salt_at e (cursor s)).
  rewrite Hh. reflexivity.
Qed.

Lemma keeps_dicts_refl h : keeps_dicts h h.
Proof. intros l items H. eauto. Qed.

Lemma keeps_dicts_trans h1 h2 h3 :
  keeps_dicts h1 h2 -> keeps_dicts h2 h3 -> keeps_dicts h1 h3.
Proof. intros H12 H23 l items H. destruct (H12 l items H) as [items' H']. eauto. Qed.

Lemma keeps_dicts_alloc h o : keeps_dicts h (h ++ [o]).
Proof.
  intros l items H. exists items. rewrite lookup_alloc_old; [exact H |].
  eapply lookup_in_store. exact H.
Qed.

Lemma py_setitem_keeps_dicts h c k v h' :
  py_setitem h c k v = Ok h' -> keeps_dicts h h'.
Proof.
  unfold py_setitem. destruct c as [| | | | l0]; try discriminate.
  destruct (h !! l0) as [[items0|]|] eqn:H0; try discriminate.
  intros H. inversion H; subst h'. intros l items Hl.
  destruct (Nat.eq_dec l0 l) as [-> | Hne].
  - eexists. apply list_lookup_insert_eq. eapply lookup_in_store. exact Hl.
  - exists items. rewrite list_lookup_insert_ne by exact Hne. exact Hl.
Qed.

Lemma sync_one_keeps_dicts cfg e au x s s' :
  sync_one cfg e au x s = Ok s' -> keeps_dicts (st_heap s) (st_heap s').
Proof.
  unfold sync_one.
  destruct (validate_username (fst x)); cbn [negb];
    [| intros H; inversion H; apply keeps_dicts_refl].
  destruct (validate_email (snd x)); cbn [negb];
    [| intros H; inversion H; apply keeps_dicts_refl].
  destruct (py_contains (st_heap s) au (fst x)) as [[|]|]; cbn [bind]; [| | discriminate].
  - destruct (py_getitem (st_heap s) au (fst x)) as [record|]; cbn [bind]; [| discriminate].
    destruct (py_get (st_heap s) record "email" (VStr "")) as [current|];
      cbn [bind]; [| discriminate].
    destruct (negb (str_eq current (snd x)));
      [| intros H; inversion H; apply keeps_dicts_refl].
    destruct (py_setitem (st_heap s) record "email" (VStr (snd x))) as [h|] eqn:Hset;
      cbn [bind]; [| discriminate].
    intros H. inversion H. cbn [st_heap]. eapply py_setitem_keeps_dicts. exact Hset.
  - destruct (generate_password e 16 (cursor s)) as [password c1].
    destruct (hash_password e password c1) as [[password_hash c2]|]; cbn [bind alloc];
      [| discriminate].
    match goal with
    | |- context [py_setitem ?h2 au (fst x) ?v] =>
        destruct (py_setitem h2 au (fst x) v) as [h3|] eqn:Hset
    end; cbn [bind]; [| discriminate].
    intros H. inversion H. cbn [st_heap].
    eapply keeps_dicts_trans; [apply keeps_dicts_alloc |].
    eapply keeps_dicts_trans; [apply keeps_dicts_alloc |].
    eapply py_setitem_keeps_dicts. exact Hset.
Qed.

Lemma sync_loop_keeps_dicts cfg e au src :
  forall s s', sync_loop cfg e au src s = Ok s' -> keeps_dicts (st_heap s) (st_heap s').
Proof.
  induction src as [|x src IH]; intros s s'; simpl.
  - intros H. inversion H. apply keeps_dicts_refl.
  - destruct (sync_one cfg e au x s) as [s0|] eqn:Hstep; cbn [bind]; [| discriminate].
    intros H. eapply keeps_dicts_trans.
    + eapply sync_one_keeps_dicts. exact Hstep.
    + apply IH. exact H.
Qed.

End Loop.

(** ** Failures and empty sources *)

Module Pass.
Import Store Step Loop.

(** Whatever a pass raises, it raises before anything is written or
    restarted. *)
Lemma raise_leaves_world cfg e w x w' :
  sync_users cfg e w = (Raise x, w') -> w' = w.
Proof.
  unfold sync_users, sync_loaded.
  destruct (load_authelia_users w) as [h0 data]. cbn [alloc].
  destruct (py_get _ data "users" _) as [au | y]; [| intros H; inversion H; reflexivity].
  destruct (get_wizarr_users w) as [|x0 l]; [discriminate |].
  destruct (sync_loop cfg e au (x0 :: l) _) as [s | y]; [| intros H; inversion H; reflexivity].
  destruct (Nat.ltb 0 (new_users s) || Nat.ltb 0 (updated_users s)); [| discriminate].
  destruct (py_setitem _ data "users" au) as [h | y]; [| intros H; inversion H; reflexivity].
  destruct (restart_authelia_container cfg e _). discriminate.
Qed.

(** The three ways the source yields no user. *)
Lemma empty_source_causes w :
  wizarr_db w = DbMissing \/ wizarr_db w = DbError \/
  (exists rows, wizarr_db w = DbRows rows /\ Forall (fun row => snd row = None) rows) ->
  get_wizarr_users w = [].
Proof.
  unfold get_wizarr_users. intros [-> | [-> | (rows & -> & Hall)]]; try reflexivity.
  induction Hall as [|[u o] rows Ho _ IH]; simpl; [reflexivity |].
  simpl in Ho. subst o. exact IH.
Qed.

(** C10, as amended.  When the source yields no user, the pass leaves
    the world as it is: no write, no restart, the users file untouched.
    It returns normally, and the single-run process exits 0, whenever the
    loaded target document is a mapping. *)
Theorem empty_source_pass cfg e w :
  get_wizarr_users w = [] ->
  snd (sync_users cfg e w) = w /\
  (is_mapping (load_authelia_users w) ->
   sync_users cfg e w = (Ok NothingToSync, w) /\ main_once cfg e w = (0%Z, w)).
Proof.
  intros Hsrc. unfold main_once, sync_users, sync_loaded. rewrite Hsrc.
  destruct (load_authelia_users w) as [h0 data]. cbn [alloc]. split.
  - destruct (py_get _ data "users" _); reflexivity.
  - intros (D & ditems & Hd & HD). cbn [fst snd] in Hd, HD. subst data.
    unfold py_get. rewrite lookup_alloc_old by (eapply lookup_in_store; exact HD).
    rewrite HD. destruct (dict_find "users" ditems); split; reflexivity.
Qed.

(** A missing, unreadable, malformed or empty users file loads as a
    mapping. *)
Lemma empty_store_is_mapping h : is_mapping (empty_store h).
Proof.
  exists (length (h ++ [ODict []])), [(VStr "users", VRef (length h))].
  cbn [empty_store alloc fst snd]. split; [reflexivity |]. apply lookup_alloc_new.
Qed.

(** C5.  If the Argon2id primitive fails for a new valid user, after
    the users before it were processed, the pass raises [HashingError]
    to the driver and the world is exactly as before the pass: the users
    file is not written (the changes made in memory for earlier users are
    dropped), nothing is restarted, and the single-run process exits 1. *)
Theorem hashing_error_aborts cfg e w h data au before u em after s1 :
  load_authelia_users w = (h, data) ->
  py_get (h ++ [ODict []]) data "users" (VRef (length h)) = Ok au ->
  get_wizarr_users w = before ++ (u, em) :: after ->
  sync_loop cfg e au before (start (h ++ [ODict []])) = Ok s1 ->
  validate_username u = true ->
  validate_email em = true ->
  py_contains (st_heap s1) au u = Ok false ->
  argon2id e (password_at e (cursor s1)) (salt_at e (cursor s1)) = None ->
  sync_users cfg e w = (Raise HashingError, w) /\
  main_once cfg e w = (1%Z, w).
Proof.
  intros Hload Hget Hsrc Hbefore Hu Hem Hnew Hfail.
  assert (Hpass : sync_users cfg e w = (Raise HashingError, w)).
  { unfold sync_users, sync_loaded. rewrite Hload. cbn [alloc]. rewrite Hget, Hsrc.
    destruct (before ++ (u, em) :: after) as [|x0 l] eqn:Hl.
    { destruct before; discriminate. }
    rewrite <- Hl. fold (start (h ++ [ODict []])).
    rewrite sync_loop_app, Hbefore. cbn [bind sync_loop].
    rewrite (sync_one_new_hash_error cfg e au u em s1) by assumption.
    reflexivity. }
  split; [exact Hpass |]. unfold main_once. rewrite Hpass. reflexivity.
Qed.

End Pass.

(** ** The users mapping during a pass *)

Module Mapping.
Import Store Step Loop.

(** What one step does for a valid user when the target is a dict. *)
Lemma sync_one_cases cfg e s U uitems u em :
  valid_user (u, em) = true ->
  st_heap s !! U = Some (ODict uitems) ->
  sync_one cfg e (VRef U) (u, em) s =
  match dict_find u uitems with
  | Some (VRef r) =>
      match st_heap s !! r with
      | Some (ODict ritems) =>
          if str_eq (stored_email ritems) em then Ok s
          else Ok (updated_state s r ritems em)
      | _ => Raise AttributeError
      end
  | Some _ => Raise AttributeError
  | None =>
      match argon2id e (password_at e (cursor s)) (salt_at e (cursor s)) with
      | Some encoded => Ok (created_state cfg s U uitems u em encoded)
      | None => Raise HashingError
      end
  end.
Proof.
  intros Hv HU. unfold valid_user in Hv. cbn [fst snd] in Hv.
  apply andb_true_iff in Hv as [Hu Hem].
  destruct (dict_find u uitems) as [v|] eqn:Hfind.
  - destruct v as [| b | z | x | r];
      try (unfold sync_one; cbn [fst snd]; rewrite Hu, Hem; cbn [negb];
           unfold py_contains, py_getitem, dict_has; rewrite HU, Hfind;
           reflexivity).
    destruct (st_heap s !! r) as [[ritems | litems]|] eqn:Hr.
    + destruct (str_eq (stored_email ritems) em) eqn:Hcmp.
      * apply (sync_one_keep cfg e s U r uitems ritems u em); assumption.
      * apply (sync_one_update cfg e s U r uitems ritems u em); assumption.
    + unfold sync_one. cbn [fst snd]. rewrite Hu, Hem. cbn [negb].
      unfold py_contains, py_getitem, dict_has. rewrite HU, Hfind. cbn [bind].
      unfold py_get. rewrite Hr. reflexivity.
    + unfold sync_one. cbn [fst snd]. rewrite Hu, Hem. cbn [negb].
      unfold py_contains, py_getitem, dict_has. rewrite HU, Hfind. cbn [bind].
      unfold py_get. rewrite Hr. reflexivity.
  - destruct (argon2id e _ _) as [encoded|] eqn:Hh.
    + apply (sync_one_create cfg e s U uitems u em); assumption.
    + apply (sync_one_hash_error cfg e s U uitems u em); assumption.
Qed.

Lemma dict_find_ref k items r : dict_find k items = Some (VRef r) -> r ∈ refs_of items.
Proof.
  induction items as [|[k0 v0] items IH]; simpl; [discriminate |].
  destruct (str_eq k0 k).
  - intros H. inversion H. subst v0. simpl. apply elem_of_cons. left. reflexivity.
  - intros H. apply elem_of_app. right. apply IH. exact H.
Qed.

(** Entries under different keys hold different records. *)
Lemma separate_keys items k1 k2 r :
  NoDup (refs_of items) -> k1 <> k2 ->
  dict_find k1 items = Some (VRef r) -> dict_find k2 items = Some (VRef r) -> False.
Proof.
  induction items as [|[k0 v0] items IH]; simpl; [discriminate |].
  intros Hnd Hne H1 H2. apply NoDup_app in Hnd as (_ & Hdisj & Hnd).
  destruct (str_eq k0 k1) eqn:E1; destruct (str_eq k0 k2) eqn:E2.
  - apply str_eq_true in E1, E2. congruence.
  - inversion H1. subst v0. apply (Hdisj r).
    + simpl. apply elem_of_cons. left. reflexivity.
    + apply (dict_find_ref k2). exact H2.
  - inversion H2. subst v0. apply (Hdisj r).
    + simpl. apply elem_of_cons. left. reflexivity.
    + apply (dict_find_ref k1). exact H1.
  - exact (IH Hnd Hne H1 H2).
Qed.

Lemma dict_find_app_l k items more v :
  dict_find k items = Some v -> dict_find k (items ++ more) = Some v.
Proof.
  induction items as [|[k0 v0] items IH]; simpl; [discriminate |].
  destruct (str_eq k0 k); [auto | exact IH].
Qed.

Lemma dict_find_app_r k items more :
  dict_find k items = None -> dict_find k (items ++ more) = dict_find k more.
Proof.
  induction items as [|[k0 v0] items IH]; simpl; [reflexivity |].
  destruct (str_eq k0 k); [discriminate | exact IH].
Qed.

Lemma refs_of_app items more : refs_of (items ++ more) = refs_of items ++ refs_of more.
Proof. unfold refs_of. apply flat_map_app. Qed.

End Mapping.

(** ** Running the reconciliation twice *)

Module Idempotence.
Import Store Step Loop Mapping.

Lemma stored_email_set em ritems :
  stored_email (dict_set "email" (VStr em) ritems) = VStr em.
Proof. unfold stored_email. rewrite dict_find_set_eq. reflexivity. Qed.

(** A step that returns keeps the records separate, brings its user in
    sync and leaves the other users' records alone. *)
Lemma step_in_sync cfg e s s' U uitems u em :
  valid_user (u, em) = true ->
  st_heap s !! U = Some (ODict uitems) ->
  separate (st_heap s) U uitems ->
  sync_one cfg e (VRef U) (u, em) s = Ok s' ->
  exists uitems',
    st_heap s' !! U = Some (ODict uitems') /\
    separate (st_heap s') U uitems' /\
    in_sync (st_heap s') uitems' (u, em) /\
    (forall y, fst y <> u -> in_sync (st_heap s) uitems y ->
               in_sync (st_heap s') uitems' y).
Proof.
  intros Hv HU (Hnd & HnU & Hlt) Hstep.
  pose proof (lookup_in_store _ _ _ HU) as HUlt.
  rewrite (sync_one_cases cfg e s U uitems u em Hv HU) in Hstep.
  destruct (dict_find u uitems) as [v|] eqn:Hfind.
  - destruct v as [| | | | r]; try discriminate.
    destruct (st_heap s !! r) as [[ritems|]|] eqn:Hr; try discriminate.
    pose proof (dict_find_ref _ _ _ Hfind) as Hrin.
    assert (HrU : r <> U) by (intros ->; exact (HnU Hrin)).
    destruct (str_eq (stored_email ritems) em) eqn:Hcmp; inversion Hstep; subst s'.
    + exists uitems. split; [exact HU |]. split; [repeat split; assumption |].
      split; [| auto].
      exists r, ritems. cbn [fst snd]. apply str_eq_true in Hcmp. auto.
    + exists uitems. cbn [updated_state st_heap]. split; [| split; [| split]].
      * rewrite list_lookup_insert_ne by exact HrU. exact HU.
      * repeat split; try assumption. rewrite length_insert. exact Hlt.
      * exists r, (dict_set "email" (VStr em) ritems). cbn [fst snd].
        split; [exact Hfind |]. split; [| apply stored_email_set].
        apply list_lookup_insert_eq. eapply lookup_in_store. exact Hr.
      * intros y Hy (r2 & ritems2 & Hf2 & Hr2 & He2).
        exists r2, ritems2. split; [exact Hf2 |]. split; [| exact He2].
        rewrite list_lookup_insert_ne; [exact Hr2 |].
        intros ->. exact (separate_keys uitems u (fst y) r2 Hnd (not_eq_sym Hy) Hfind Hf2).
  - destruct (argon2id e _ _) as [encoded|]; [| discriminate].
    inversion Hstep; subst s'. clear Hstep. cbn [created_state st_heap].
    set (h := st_heap s) in *.
    set (h2 := (h ++ [OList [VStr (default_group cfg)]])
                 ++ [new_record u encoded em (length h)]).
    assert (Hlen2 : length h2 = S (S (length h))).
    { unfold h2. rewrite !length_app. simpl. lia. }
    exists (uitems ++ [(VStr u, VRef (S (length h)))]).
    split; [| split; [| split]].
    + apply list_lookup_insert_eq. lia.
    + unfold separate. rewrite refs_of_app. simpl. rewrite length_insert, Hlen2.
      split; [| split].
      * apply NoDup_app. split; [exact Hnd |]. split; [| apply NoDup_singleton].
        intros x Hx Hx'. apply list_elem_of_singleton in Hx'. subst x.
        rewrite Forall_forall in Hlt. apply Hlt in Hx. lia.
      * intros Hin. apply elem_of_app in Hin as [Hin | Hin]; [exact (HnU Hin) |].
        apply list_elem_of_singleton in Hin. lia.
      * apply Forall_app. split.
        -- eapply Forall_impl; [exact Hlt |]. simpl. intros; lia.
        -- constructor; [lia | constructor].
    + exists (S (length h)), [(VStr "displayname", VStr (title u));
                             (VStr "password", VStr encoded);
                             (VStr "email", VStr em);
                             (VStr "groups", VRef (length h))].
      cbn [fst snd]. split; [| split; [| reflexivity]].
      * rewrite (dict_find_app_r _ _ _ Hfind). simpl. rewrite String.eqb_refl. reflexivity.
      * rewrite list_lookup_insert_ne by lia. unfold h2.
        replace (S (length h)) with (length (h ++ [OList [VStr (default_group cfg)]]))
          by (rewrite length_app; simpl; lia).
        apply lookup_alloc_new.
    + intros y Hy (r2 & ritems2 & Hf2 & Hr2 & He2).
      exists r2, ritems2. split; [apply dict_find_app_l; exact Hf2 |].
      split; [| exact He2].
      pose proof (dict_find_ref _ _ _ Hf2) as Hin.
      assert (r2 <> U) by (intros ->; exact (HnU Hin)).
      pose proof (lookup_in_store _ _ _ Hr2) as Hr2lt.
      rewrite list_lookup_insert_ne by congruence. unfold h2.
      rewrite !lookup_app_l by (rewrite ?length_app; simpl; lia). exact Hr2.
Qed.

(** After a run that returns, every valid source entry is in sync. *)
Lemma first_run_syncs cfg e U src :
  forall done s s1 uitems,
    st_heap s !! U = Some (ODict uitems) ->
    separate (st_heap s) U uitems ->
    consistent (done ++ src) ->
    (forall y, In y done -> valid_user y = true -> in_sync (st_heap s) uitems y) ->
    sync_loop cfg e (VRef U) src s = Ok s1 ->
    exists uitems1,
      st_heap s1 !! U = Some (ODict uitems1) /\
      forall y, In y (done ++ src) -> valid_user y = true ->
                in_sync (st_heap s1) uitems1 y.
Proof.
  induction src as [|[u em] src IH]; intros done s s1 uitems HU Hsep Hcons Hdone Hrun.
  - simpl in Hrun. inversion Hrun; subst s1. exists uitems. split; [exact HU |].
    rewrite app_nil_r. exact Hdone.
  - simpl in Hrun.
    destruct (sync_one cfg e (VRef U) (u, em) s) as [s'|] eqn:Hstep; [| discriminate].
    cbn [bind] in Hrun.
    replace (done ++ (u, em) :: src) with ((done ++ [(u, em)]) ++ src) in *
      by (rewrite <- app_assoc; reflexivity).
    destruct (valid_user (u, em)) eqn:Hv.
    + destruct (step_in_sync cfg e s s' U uitems u em Hv HU Hsep Hstep)
        as (uitems' & HU' & Hsep' & Hnow & Hothers).
      apply (IH (done ++ [(u, em)]) s' s1 uitems' HU' Hsep' Hcons); [| exact Hrun].
      intros y Hy Hvy. apply in_app_or in Hy as [Hy | [<- | []]]; [| exact Hnow].
      destruct y as [u2 em2]. destruct (string_dec u2 u) as [-> | Hne].
      * assert (em2 = em) as ->; [| exact Hnow].
        apply (Hcons u em2 em); try assumption.
        -- apply in_or_app. left. apply in_or_app. left. exact Hy.
        -- apply in_or_app. left. apply in_or_app. right. left. reflexivity.
      * apply Hothers; [exact Hne | apply Hdone; assumption].
    + rewrite (sync_one_invalid cfg e (VRef U) (u, em) s Hv) in Hstep.
      inversion Hstep; subst s'.
      apply (IH (done ++ [(u, em)]) s s1 uitems HU Hsep Hcons); [| exact Hrun].
      intros y Hy Hvy. apply in_app_or in Hy as [Hy | [<- | []]].
      * apply Hdone; assumption.
      * congruence.
Qed.

(** When every valid source entry is in sync, a run changes nothing. *)
Lemma in_sync_run_is_noop cfg e U src :
  forall s uitems,
    st_heap s !! U = Some (ODict uitems) ->
    (forall y, In y src -> valid_user y = true -> in_sync (st_heap s) uitems y) ->
    sync_loop cfg e (VRef U) src s = Ok s.
Proof.
  induction src as [|[u em] src IH]; intros s uitems HU Hall; [reflexivity |].
  assert (Hstep : sync_one cfg e (VRef U) (u, em) s = Ok s).
  { destruct (valid_user (u, em)) eqn:Hv; [| apply sync_one_invalid; exact Hv].
    rewrite (sync_one_cases cfg e s U uitems u em Hv HU).
    destruct (Hall (u, em) (or_introl eq_refl) Hv) as (r & ritems & Hf & Hr & He).
    cbn [fst snd] in Hf, He. rewrite Hf, Hr, He. simpl. rewrite String.eqb_refl.
    reflexivity. }
  simpl. rewrite Hstep. cbn [bind]. apply (IH s uitems HU).
  intros y Hy. apply Hall. right. exact Hy.
Qed.

(** C3, as amended.  Take a source list whose valid entries agree on
    the email of each username, and a target mapping whose records are
    separate objects.  If a first run returns, a second run over the
    target it produced, with the same source list and whatever randomness,
    creates nothing, updates nothing and leaves every object of the store
    as the first run left it. *)
Theorem second_run_is_noop cfg e e2 U src h uitems c c2 s1 :
  h !! U = Some (ODict uitems) ->
  separate h U uitems ->
  consistent src ->
  sync_loop cfg e (VRef U) src
    {| st_heap := h; new_users := 0; updated_users := 0; cursor := c |} = Ok s1 ->
  sync_loop cfg e2 (VRef U) src
    {| st_heap := st_heap s1; new_users := 0; updated_users := 0; cursor := c2 |} =
  Ok {| st_heap := st_heap s1; new_users := 0; updated_users := 0; cursor := c2 |}.
Proof.
  intros HU Hsep Hcons Hrun.
  destruct (first_run_syncs cfg e U src []
              {| st_heap := h; new_users := 0; updated_users := 0; cursor := c |}
              s1 uitems HU Hsep Hcons
              (fun y (Hy : In y []) => match Hy with end) Hrun)
    as (uitems1 & HU1 & Hsync).
  apply (in_sync_run_is_noop cfg e2 U src _ uitems1); [exact HU1 | exact Hsync].
Qed.

End Idempotence.

(** ** A pass over a target that holds no user *)

Module Fresh.
Import Store Step Loop Mapping Pass.

Lemma dict_find_keys k uitems ks :
  map fst uitems = map VStr ks ->
  match dict_find k uitems with
  | Some v => k ∈ ks /\ v ∈ map snd uitems
  | None => k ∉ ks
  end.
Proof.
  revert ks. induction uitems as [|[k0 v0] uitems IH]; intros [|k1 ks] Hks;
    try discriminate; simpl.
  - intros H. inversion H.
  - simpl in Hks. inversion Hks as [[Hk0 Hrest]]. subst k0. simpl.
    destruct (String.eqb k1 k) eqn:Hk.
    + apply String.eqb_eq in Hk. subst k1. split; apply elem_of_cons; left; reflexivity.
    + apply String.eqb_neq in Hk. specialize (IH ks Hrest).
      destruct (dict_find k uitems).
      * destruct IH. split; apply elem_of_cons; right; assumption.
      * intros Hin. apply elem_of_cons in Hin as [-> | Hin]; [congruence | exact (IH Hin)].
Qed.

(** A step from a good mapping raises nothing but [HashingError], and
    only when the primitive fails; otherwise the mapping stays good, with
    the username added if it was new. *)
Lemma step_good cfg e s U ks u em :
  valid_user (u, em) = true ->
  good s U ks ->
  match sync_one cfg e (VRef U) (u, em) s with
  | Ok s' => good s' U (if bool_decide (u ∈ ks) then ks else ks ++ [u])
  | Raise x => x = HashingError /\ exists pw salt, argon2id e pw salt = None
  end.
Proof.
  intros Hv (uitems & HU & Hks & Hnd & Hrec & Hnew).
  pose proof (lookup_in_store _ _ _ HU) as HUlt.
  rewrite (sync_one_cases cfg e s U uitems u em Hv HU).
  pose proof (dict_find_keys u uitems ks Hks) as Hfind.
  destruct (dict_find u uitems) as [v|] eqn:Hf.
  - destruct Hfind as [Hin Hvin].
    rewrite bool_decide_eq_true_2 by exact Hin.
    rewrite Forall_forall in Hrec.
    destruct (Hrec v Hvin) as (r & ritems & -> & HrU & Hr). rewrite Hr.
    destruct (str_eq (stored_email ritems) em).
    + exists uitems. rewrite <- Forall_forall in Hrec. repeat split; assumption.
    + exists uitems. cbn [updated_state st_heap new_users].
      split; [rewrite list_lookup_insert_ne by exact HrU; exact HU |].
      repeat split; try assumption.
      apply Forall_forall. intros v' Hv'.
      destruct (Hrec v' Hv') as (r' & ritems' & -> & Hr'U & Hr').
      destruct (Nat.eq_dec r r') as [<- | Hne].
      * exists r, (dict_set "email" (VStr em) ritems). repeat split; try assumption.
        apply list_lookup_insert_eq. eapply lookup_in_store. exact Hr.
      * exists r', ritems'. repeat split; try assumption.
        rewrite list_lookup_insert_ne by exact Hne. exact Hr'.
  - rewrite bool_decide_eq_false_2 by exact Hfind.
    destruct (argon2id e _ _) as [encoded|] eqn:Hh;
      [| split; [reflexivity | eexists _, _; exact Hh]].
    unfold created_state. set (h := st_heap s) in *.
    assert (Hlen2 : length ((h ++ [OList [VStr (default_group cfg)]])
                              ++ [new_record u encoded em (length h)]) = S (S (length h))).
    { rewrite !length_app. simpl. lia. }
    exists (uitems ++ [(VStr u, VRef (S (length h)))]). cbn [st_heap new_users].
    split; [apply list_lookup_insert_eq; lia |].
    split; [rewrite !map_app, Hks; reflexivity |].
    split.
    { apply NoDup_app. split; [exact Hnd |]. split; [| apply NoDup_singleton].
      intros x Hx Hx'. apply list_elem_of_singleton in Hx'. subst x. exact (Hfind Hx). }
    split; [| rewrite length_app, Hnew; reflexivity].
    rewrite map_app. apply Forall_app. split.
    + eapply Forall_impl; [exact Hrec |]. cbn beta.
      intros v (r & ritems & -> & HrU & Hr). exists r, ritems.
      repeat split; try assumption.
      pose proof (lookup_in_store _ _ _ Hr) as Hrlt.
      rewrite list_lookup_insert_ne by congruence.
      rewrite !lookup_app_l by (rewrite ?length_app; simpl; lia). exact Hr.
    + constructor; [| constructor]. simpl.
      exists (S (length h)), [(VStr "displayname", VStr (title u));
                              (VStr "password", VStr encoded);
                              (VStr "email", VStr em);
                              (VStr "groups", VRef (length h))].
      split; [reflexivity |]. split; [lia |].
      rewrite list_lookup_insert_ne by lia.
      replace (S (length h)) with (length (h ++ [OList [VStr (default_group cfg)]]))
        by (rewrite length_app; simpl; lia).
      apply lookup_alloc_new.
Qed.

Lemma loop_good cfg e U src :
  forall s ks,
    good s U ks ->
    match sync_loop cfg e (VRef U) src s with
    | Ok s1 =>
        exists ks1, good s1 U ks1 /\
          forall u, u ∈ ks1 <-> u ∈ ks \/ u ∈ map fst (List.filter valid_user src)
    | Raise x => x = HashingError /\ exists pw salt, argon2id e pw salt = None
    end.
Proof.
  induction src as [|[u em] src IH]; intros s ks Hgood.
  - simpl. exists ks. split; [exact Hgood |]. intros u. split; [auto |].
    intros [H | H]; [exact H | inversion H].
  - simpl. destruct (valid_user (u, em)) eqn:Hv.
    + pose proof (step_good cfg e s U ks u em Hv Hgood) as Hstep.
      destruct (sync_one cfg e (VRef U) (u, em) s) as [s'|x]; cbn [bind]; [| exact Hstep].
      specialize (IH s' _ Hstep).
      destruct (sync_loop cfg e (VRef U) src s') as [s1|x]; [| exact IH].
      destruct IH as (ks1 & Hgood1 & Hmem). exists ks1. split; [exact Hgood1 |].
      intros u0. rewrite Hmem. simpl. rewrite elem_of_cons.
      destruct (bool_decide (u ∈ ks)) eqn:Hd.
      * apply bool_decide_eq_true_1 in Hd. split; [tauto |].
        intros [H | [-> | H]]; tauto.
      * rewrite elem_of_app, list_elem_of_singleton. tauto.
    + rewrite (sync_one_invalid cfg e (VRef U) (u, em) s Hv). cbn [bind].
      apply IH. exact Hgood.
Qed.

(** A pass over [{'users': {}}] fails only when hashing fails; when it
    returns it has created one user per valid source username. *)
Lemma pass_on_empty_store cfg e w :
  match sync_loaded cfg e w (empty_store []) with
  | (Ok r, _) => created_of r = length (valid_usernames (get_wizarr_users w))
  | (Raise x, _) => x = HashingError /\ exists pw salt, argon2id e pw salt = None
  end.
Proof.
  unfold sync_loaded, empty_store. cbn [alloc app length].
  change (py_get [ODict []; ODict [(VStr "users", VRef 0)]; ODict []]
            (VRef 1) "users" (VRef 2)) with (@Ok pyval (VRef 0)).
  cbv beta iota.
  destruct (get_wizarr_users w) as [|x0 src0] eqn:Hsrc; [reflexivity |].
  set (h1 := [ODict []; ODict [(VStr "users", VRef 0)]; ODict []]).
  assert (Hgood : good (start h1) 0 []).
  { exists []. repeat split; try reflexivity; constructor. }
  pose proof (loop_good cfg e 0 (x0 :: src0) (start h1) [] Hgood) as Hloop.
  pose proof (sync_loop_keeps_dicts cfg e (VRef 0) (x0 :: src0) (start h1)) as Hkeep.
  fold (start h1).
  destruct (sync_loop cfg e (VRef 0) (x0 :: src0) (start h1)) as [s1|x]; [| exact Hloop].
  destruct Hloop as (ks1 & (uitems & _ & _ & Hnd & _ & Hnew) & Hmem).
  assert (Hcount : new_users s1 = length (valid_usernames (x0 :: src0))).
  { rewrite Hnew. apply Permutation_length. apply NoDup_Permutation.
    - exact Hnd.
    - apply NoDup_remove_dups.
    - intros u. unfold valid_usernames. rewrite elem_of_remove_dups, Hmem.
      split; [intros [H | H]; [inversion H | exact H] | auto]. }
  destruct (Nat.ltb 0 (new_users s1) || Nat.ltb 0 (updated_users s1)) eqn:Hchg.
  - destruct (Hkeep s1 eq_refl 1 [(VStr "users", VRef 0)] eq_refl) as [ditems HD].
    unfold py_setitem. rewrite HD.
    destruct (restart_authelia_container cfg e _) as [ok w2]. exact Hcount.
  - apply orb_false_iff in Hchg as [Hn _]. apply Nat.ltb_ge in Hn.
    simpl. lia.
Qed.

Lemma dict_find_In k items v :
  dict_find k items = Some v -> In (VStr k, v) items.
Proof.
  induction items as [|[k0 v0] items IH]; simpl; [discriminate |].
  destruct (str_eq k0 k) eqn:Hk.
  - intros H. inversion H. subst v0. apply str_eq_true in Hk. subst k0. left. reflexivity.
  - intros H. right. exact (IH H).
Qed.

Lemma refs_of_In r items : r ∈ refs_of items <-> exists k, In (k, VRef r) items.
Proof.
  induction items as [|[k0 v0] items IH]; simpl.
  - split; [intros H; inversion H | intros [k []]].
  - rewrite elem_of_app, IH. split.
    + intros [H | [k H]]; [| exists k; right; exact H].
      destruct v0; simpl in H; try (inversion H; fail).
      apply list_elem_of_singleton in H. subst. exists k0. left. reflexivity.
    + intros [k [H | H]]; [| right; exists k; exact H].
      inversion H. subst. left. simpl. apply list_elem_of_singleton. reflexivity.
Qed.

(** No two entries share a record: an address names its key. *)
Lemma same_ref_same_key items k1 k2 r :
  NoDup (refs_of items) -> In (k1, VRef r) items -> In (k2, VRef r) items -> k1 = k2.
Proof.
  induction items as [|[k0 v0] items IH]; simpl; [intros _ [] |].
  intros Hnd H1 H2. apply NoDup_app in Hnd as (_ & Hdisj & Hnd).
  destruct H1 as [H1 | H1]; destruct H2 as [H2 | H2].
  - congruence.
  - inversion H1. subst. exfalso. apply (Hdisj r).
    + simpl. apply list_elem_of_singleton. reflexivity.
    + apply refs_of_In. exists k2. exact H2.
  - inversion H2. subst. exfalso. apply (Hdisj r).
    + simpl. apply list_elem_of_singleton. reflexivity.
    + apply refs_of_In. exists k1. exact H1.
  - exact (IH Hnd H1 H2).
Qed.

(** One step keeps the records of a mapping that the loop filled. *)
Lemma step_fresh cfg e src U D d base s u em :
  U < base -> D < base -> U <> D ->
  In (u, em) src -> valid_user (u, em) = true ->
  fresh_records cfg e src U D d base s ->
  forall s', sync_one cfg e (VRef U) (u, em) s = Ok s' ->
             fresh_records cfg e src U D d base s'.
Proof.
  intros HUb HDb HUD Hin Hv (Hbase & HD & uitems & HU & Hnd & Hrec) s'.
  rewrite (sync_one_cases cfg e s U uitems u em Hv HU).
  destruct (dict_find u uitems) as [v|] eqn:Hf.
  - apply dict_find_In in Hf.
    pose proof Hrec as Hall. rewrite List.Forall_forall in Hall.
    destruct (Hall _ Hf) as (u0 & r & em0 & encoded & g & Hkv & Hr3 & Hg3 & Hr & Hg & _).
    inversion Hkv. subst u0 v. rewrite Hr. unfold new_record.
    match goal with
    | |- context [stored_email ?items] =>
        change (stored_email items) with (VStr em0)
    end.
    destruct (str_eq (VStr em0) em); intros Hs; inversion Hs; subst s'.
    + split; [exact Hbase |]. split; [exact HD |]. exists uitems. auto.
    + unfold updated_state, fresh_records. cbn [st_heap].
      match goal with
      | |- context [dict_set "email" (VStr em) ?items] =>
          change (dict_set "email" (VStr em) items)
            with [(VStr "displayname", VStr (title u)); (VStr "password", VStr encoded);
                  (VStr "email", VStr em); (VStr "groups", VRef g)]
      end.
      fold (new_record u encoded em g).
      split; [rewrite length_insert; exact Hbase |].
      split; [rewrite list_lookup_insert_ne by lia; exact HD |].
      exists uitems.
      split; [rewrite list_lookup_insert_ne by lia; exact HU |].
      split; [exact Hnd |].
      apply List.Forall_forall. intros kv Hkv'.
      destruct (Hall _ Hkv') as (u1 & r1 & em1 & enc1 & g1 & -> & Hr13 & Hg13 & Hr1 & Hg1
                                 & Hin1 & Hv1 & Hh1).
      destruct (Nat.eq_dec r1 r) as [-> | Hne].
      * assert (Hsame : VStr u1 = VStr u) by exact (same_ref_same_key _ _ _ _ Hnd Hkv' Hf).
        inversion Hsame. subst u1.
        rewrite Hr in Hr1. inversion Hr1. subst enc1 g1.
        exists u, r, em, encoded, g.
        split; [reflexivity |]. split; [exact Hr3 |]. split; [exact Hg3 |].
        split; [apply list_lookup_insert_eq; eapply lookup_in_store; exact Hr |].
        split; [rewrite list_lookup_insert_ne
                  by (intros Heq; rewrite Heq, Hg in Hr; discriminate Hr); exact Hg |].
        split; [exact Hin |]. split; [exact Hv |]. exact Hh1.
      * exists u1, r1, em1, enc1, g1.
        split; [reflexivity |]. split; [exact Hr13 |]. split; [exact Hg13 |].
        split; [rewrite list_lookup_insert_ne by congruence; exact Hr1 |].
        split; [rewrite list_lookup_insert_ne
                  by (intros Heq; rewrite Heq, Hg1 in Hr; discriminate Hr); exact Hg1 |].
        split; [exact Hin1 |]. split; [exact Hv1 |]. exact Hh1.
  - destruct (argon2id e _ _) as [encoded|] eqn:Hh; [| discriminate].
    intros Hs. inversion Hs. subst s'. clear Hs.
    unfold created_state, fresh_records. cbn [st_heap]. set (h := st_heap s) in *.
    pose proof (lookup_in_store _ _ _ HD) as HDlt.
    pose proof (lookup_in_store _ _ _ HU) as HUlt.
    assert (Hlen2 : length ((h ++ [OList [VStr (default_group cfg)]])
                              ++ [new_record u encoded em (length h)]) = S (S (length h))).
    { rewrite !length_app. simpl. lia. }
    assert (Hnew : ((h ++ [OList [VStr (default_group cfg)]])
                      ++ [new_record u encoded em (length h)]) !! S (length h)
                   = Some (new_record u encoded em (length h))).
    { replace (S (length h)) with (length (h ++ [OList [VStr (default_group cfg)]]))
        by (rewrite length_app; simpl; lia).
      apply lookup_alloc_new. }
    assert (Hgrp : ((h ++ [OList [VStr (default_group cfg)]])
                      ++ [new_record u encoded em (length h)]) !! length h
                   = Some (OList [VStr (default_group cfg)])).
    { rewrite lookup_alloc_old by (rewrite length_app; simpl; lia).
      apply lookup_alloc_new. }
    assert (Hold : forall l, l < length h ->
              ((h ++ [OList [VStr (default_group cfg)]])
                 ++ [new_record u encoded em (length h)]) !! l = h !! l).
    { intros l Hl. rewrite !lookup_app_l by (rewrite ?length_app; simpl; lia). reflexivity. }
    split; [rewrite length_insert, Hlen2; lia |].
    split; [rewrite list_lookup_insert_ne by exact HUD; rewrite Hold by exact HDlt; exact HD |].
    exists (uitems ++ [(VStr u, VRef (S (length h)))]).
    split; [apply list_lookup_insert_eq; lia |].
    split.
    { rewrite refs_of_app. apply NoDup_app. split; [exact Hnd |].
      split; [| simpl; apply NoDup_singleton].
      intros x Hx Hx'. simpl in Hx'. apply list_elem_of_singleton in Hx'. subst x.
      apply refs_of_In in Hx as [k Hk]. rewrite List.Forall_forall in Hrec.
      destruct (Hrec _ Hk) as (u1 & r1 & em1 & enc1 & g1 & Hkv & _ & _ & Hr1 & _).
      inversion Hkv. subst r1. apply lookup_in_store in Hr1. lia. }
    apply Forall_app. split.
    + eapply Forall_impl; [exact Hrec |]. cbn beta.
      intros kv (u1 & r1 & em1 & enc1 & g1 & -> & Hr13 & Hg13 & Hr1 & Hg1 & Hrest).
      exists u1, r1, em1, enc1, g1.
      split; [reflexivity |]. split; [exact Hr13 |]. split; [exact Hg13 |].
      pose proof (lookup_in_store _ _ _ Hr1) as Hr1lt.
      pose proof (lookup_in_store _ _ _ Hg1) as Hg1lt.
      split; [rewrite list_lookup_insert_ne by lia; rewrite Hold by exact Hr1lt; exact Hr1 |].
      split; [rewrite list_lookup_insert_ne by lia; rewrite Hold by exact Hg1lt; exact Hg1 |].
      exact Hrest.
    + constructor; [| constructor].
      exists u, (S (length h)), em, encoded, (length h).
      split; [reflexivity |]. split; [lia |]. split; [lia |].
      split; [rewrite list_lookup_insert_ne by lia; exact Hnew |].
      split; [rewrite list_lookup_insert_ne by lia; exact Hgrp |].
      split; [exact Hin |]. split; [exact Hv |].
      eexists _, _. exact Hh.
Qed.

Lemma loop_fresh cfg e src U D d base :
  U < base -> D < base -> U <> D ->
  forall rest s s1,
    (forall x, In x rest -> In x src) ->
    fresh_records cfg e src U D d base s ->
    sync_loop cfg e (VRef U) rest s = Ok s1 ->
    fresh_records cfg e src U D d base s1.
Proof.
  intros HUb HDb HUD.
  induction rest as [|[u em] rest IH]; intros s s1 Hincl Hfresh Hrun.
  - simpl in Hrun. inversion Hrun. subst s1. exact Hfresh.
  - simpl in Hrun.
    destruct (sync_one cfg e (VRef U) (u, em) s) as [s'|x] eqn:Hstep; [| discriminate].
    cbn [bind] in Hrun.
    assert (Hfresh' : fresh_records cfg e src U D d base s').
    { destruct (valid_user (u, em)) eqn:Hv.
      - apply (step_fresh cfg e src U D d base s u em HUb HDb HUD
                 (Hincl _ (or_introl eq_refl)) Hv Hfresh s' Hstep).
      - rewrite (sync_one_invalid cfg e (VRef U) (u, em) s Hv) in Hstep.
        inversion Hstep. subst s'. exact Hfresh. }
    apply (IH s' s1); [intros x Hx; apply Hincl; right; exact Hx | exact Hfresh' | exact Hrun].
Qed.

(** A pass over [{'users': {}}] that writes leaves a users file holding
    one created record per valid source username, and nothing else. *)
Lemma pass_on_empty_store_file cfg e w r w' :
  dry_run cfg = false ->
  write_failure e = None ->
  valid_usernames (get_wizarr_users w) <> [] ->
  sync_loaded cfg e w (empty_store []) = (Ok r, w') ->
  (exists updated ok,
     r = Synced (length (valid_usernames (get_wizarr_users w))) updated ok) /\
  holds_created cfg e (get_wizarr_users w) (users_file w').
Proof.
  intros Hdry Hwrite Hsome.
  unfold sync_loaded, empty_store. cbn [alloc app length].
  change (py_get [ODict []; ODict [(VStr "users", VRef 0)]; ODict []]
            (VRef 1) "users" (VRef 2)) with (@Ok pyval (VRef 0)).
  cbv beta iota.
  destruct (get_wizarr_users w) as [|x0 src0] eqn:Hsrc; [exfalso; apply Hsome; reflexivity |].
  set (src := x0 :: src0) in *.
  set (h1 := [ODict []; ODict [(VStr "users", VRef 0)]; ODict []]).
  assert (Hgood : good (start h1) 0 []).
  { exists []. repeat split; try reflexivity; constructor. }
  assert (Hfresh : fresh_records cfg e src 0 1 (ODict [(VStr "users", VRef 0)]) 3 (start h1)).
  { split; [simpl; lia |]. split; [reflexivity |]. exists [].
    split; [reflexivity |]. split; constructor. }
  pose proof (loop_good cfg e 0 src (start h1) [] Hgood) as Hloop.
  pose proof (loop_fresh cfg e src 0 1 (ODict [(VStr "users", VRef 0)]) 3
                ltac:(lia) ltac:(lia) ltac:(lia) src (start h1)) as Hrec.
  fold (start h1).
  destruct (sync_loop cfg e (VRef 0) src (start h1)) as [s1|x]; [| discriminate].
  destruct Hloop as (ks1 & (uitems & HU & Hks & Hnd & _ & Hnew) & Hmem).
  destruct (Hrec s1 (fun x H => H) Hfresh eq_refl)
    as (Hbase & HD & uitems' & HU' & _ & Hmade).
  rewrite HU in HU'. inversion HU'. subst uitems'. clear HU'.
  assert (Hmem' : forall u, u ∈ ks1 <-> u ∈ map fst (List.filter valid_user src)).
  { intros u. rewrite Hmem. split; [intros [H | H]; [inversion H | exact H] | auto]. }
  assert (Hcount : new_users s1 = length (valid_usernames src)).
  { rewrite Hnew. apply Permutation_length. apply NoDup_Permutation.
    - exact Hnd.
    - apply NoDup_remove_dups.
    - intros u. unfold valid_usernames. rewrite elem_of_remove_dups. apply Hmem'. }
  assert (Hpos : Nat.ltb 0 (new_users s1) = true).
  { apply Nat.ltb_lt. rewrite Hcount.
    destruct (valid_usernames src); [congruence | simpl; lia]. }
  rewrite Hpos. cbn [orb]. unfold py_setitem. rewrite HD.
  change (dict_set "users" (VRef 0) [(VStr "users", VRef 0)])
    with [(VStr "users", VRef 0)].
  unfold save_authelia_users. rewrite Hdry, Hwrite.
  match goal with
  | |- context [restart_authelia_container cfg e ?w1] =>
      pose proof (restart_keeps_file cfg e w1) as Hkeep;
      destruct (restart_authelia_container cfg e w1) as [ok w2]
  end.
  cbn [snd users_file] in Hkeep.
  intros Hres. inversion Hres. subst r w'. clear Hres.
  split; [exists (updated_users s1), ok; rewrite Hcount; reflexivity |].
  rewrite Hkeep.
  pose proof (lookup_in_store _ _ _ HD) as HDlt.
  eexists _, uitems, ks1. split; [reflexivity |].
  split; [apply list_lookup_insert_eq; exact HDlt |].
  split; [rewrite list_lookup_insert_ne by lia; exact HU |].
  split; [exact Hks |]. split; [exact Hnd |]. split; [exact Hmem' |].
  eapply Forall_impl; [exact Hmade |]. cbn beta.
  intros kv (u1 & r1 & em1 & enc1 & g1 & -> & Hr13 & Hg13 & Hr1 & Hg1 & Hrest).
  exists u1, r1, em1, enc1, g1.
  split; [reflexivity |]. split; [exact Hr13 |]. split; [exact Hg13 |].
  split; [rewrite list_lookup_insert_ne by lia; exact Hr1 |].
  split; [rewrite list_lookup_insert_ne by lia; exact Hg1 |].
  exact Hrest.
Qed.

(** C4.  A users file that is missing, unreadable or malformed loads
    as the store [{'users': {}}] and the pass goes on from there instead
    of failing: it is the pass over that empty store, it raises nothing
    but a hashing failure, and when it returns it has created one user
    for every valid source username.  Every valid source user is treated
    as new: when there is one (and the pass is no dry run and the write
    succeeds) the pass reports that many creations and the file it wrote
    is [{'users': m}] where the keys of [m] are exactly the valid source
    usernames, each bound to a newly built record of its own with the
    titled username as display name, an encoding returned by the
    Argon2id primitive as password, the email of a valid source entry
    with that username, and a groups list holding the default group
    only. *)
Theorem unusable_target_is_empty cfg e w :
  users_file w = FMissing \/ users_file w = FUnreadable \/ users_file w = FMalformed ->
  load_authelia_users w = empty_store [] /\
  reify 2 (fst (empty_store [])) (snd (empty_store [])) = TDict [(TStr "users", TDict [])] /\
  sync_users cfg e w = sync_loaded cfg e w (empty_store []) /\
  match sync_users cfg e w with
  | (Ok r, w') =>
      created_of r = length (valid_usernames (get_wizarr_users w)) /\
      (dry_run cfg = false -> write_failure e = None ->
       valid_usernames (get_wizarr_users w) <> [] ->
       (exists updated ok,
          r = Synced (length (valid_usernames (get_wizarr_users w))) updated ok) /\
       holds_created cfg e (get_wizarr_users w) (users_file w'))
  | (Raise x, _) => x = HashingError /\ exists pw salt, argon2id e pw salt = None
  end.
Proof.
  intros Hfile.
  assert (Hload : load_authelia_users w = empty_store []).
  { unfold load_authelia_users. destruct Hfile as [-> | [-> | ->]]; reflexivity. }
  split; [exact Hload |]. split; [reflexivity |].
  unfold sync_users. rewrite Hload. split; [reflexivity |].
  pose proof (pass_on_empty_store cfg e w) as Hpass.
  pose proof (pass_on_empty_store_file cfg e w) as Hwritten.
  destruct (sync_loaded cfg e w (empty_store [])) as [[r | x] w']; [| exact Hpass].
  split; [exact Hpass |].
  intros Hdry Hwrite Hsome. exact (Hwritten r w' Hdry Hwrite Hsome eq_refl).
Qed.

End Fresh.

(** ** What a pass leaves alone *)

Module Frame.
Import Store Step Loop Mapping Pass.

(** [reify] depends only on the objects it visits. *)
Lemma reify_agree (h h' : list pyobj) :
  forall fuel v,
    (forall l, In l (visited fuel h v) -> h' !! l = h !! l) ->
    reify fuel h' v = reify fuel h v.
Proof.
  induction fuel as [|f IH]; intros v Hagree; destruct v as [| | | | l];
    try reflexivity.
  assert (Hl : h' !! l = h !! l) by (apply Hagree; left; reflexivity).
  cbn [reify]. rewrite Hl.
  destruct (h !! l) as [[items|items]|] eqn:Hobj; [| | reflexivity].
  - f_equal. apply map_ext_in. intros [k v] Hin. cbn [fst snd].
    assert (Hsub : forall l', In l' (visited f h k ++ visited f h v) ->
                              h' !! l' = h !! l').
    { intros l' Hl'. apply Hagree. cbn [visited]. rewrite Hobj. right.
      apply in_flat_map. exists (k, v). split; [exact Hin | exact Hl']. }
    f_equal; apply IH; intros l' Hl'; apply Hsub; apply in_or_app; auto.
  - f_equal. apply map_ext_in. intros v Hin. apply IH. intros l' Hl'.
    apply Hagree. cbn [visited]. rewrite Hobj. right.
    apply in_flat_map. exists v. split; [exact Hin | exact Hl'].
Qed.

(** Assigning a str to a key adds no reference. *)
Lemma refs_of_set_str k x items r :
  r ∈ refs_of (dict_set k (VStr x) items) -> r ∈ refs_of items.
Proof.
  induction items as [|[k0 v0] items IH]; simpl.
  - intros H. inversion H.
  - destruct (str_eq k0 k); simpl.
    + intros H. apply elem_of_app. right. exact H.
    + rewrite !elem_of_app. intros [H | H]; [left; exact H | right; exact (IH H)].
Qed.

(** Assigning to a key leaves the entries under the other keys. *)
Lemma dict_set_others k v items kv :
  str_eq (fst kv) k = false -> In kv items -> In kv (dict_set k v items).
Proof.
  intros Hk. induction items as [|[k0 v0] items IH]; simpl; [auto |].
  intros [<- | Hin].
  - cbn [fst] in Hk. rewrite Hk. left. reflexivity.
  - destruct (str_eq k0 k); [right; exact Hin | right; exact (IH Hin)].
Qed.

Lemma step_framed cfg e h0 U refs0 x s s' :
  framed h0 U refs0 s ->
  sync_one cfg e (VRef U) x s = Ok s' ->
  framed h0 U refs0 s'.
Proof.
  intros Hfr Hstep. destruct (valid_user x) eqn:Hv;
    [| rewrite (sync_one_invalid _ _ _ _ _ Hv) in Hstep; inversion Hstep; subst; exact Hfr].
  destruct x as [u em]. destruct Hfr as (Hlen & (uitems & HU & Hrefs) & Hsame).
  pose proof (lookup_in_store _ _ _ HU) as HUlt.
  rewrite (sync_one_cases cfg e s U uitems u em Hv HU) in Hstep.
  destruct (dict_find u uitems) as [v|] eqn:Hfind.
  - destruct v as [| | | | r]; try discriminate.
    destruct (st_heap s !! r) as [[ritems|]|] eqn:Hr; try discriminate.
    destruct (str_eq (stored_email ritems) em); inversion Hstep; subst s'.
    + split; [exact Hlen |]. split; [exists uitems; auto | exact Hsame].
    + pose proof (dict_find_ref _ _ _ Hfind) as Hrin.
      unfold updated_state, framed. cbn [st_heap].
      rewrite length_insert. split; [exact Hlen |]. split.
      * destruct (Nat.eq_dec r U) as [-> | Hne].
        -- exists (dict_set "email" (VStr em) ritems).
           split; [apply list_lookup_insert_eq; exact HUlt |].
           intros r0 Hr0. apply refs_of_set_str in Hr0.
           assert (ritems = uitems) as -> by congruence. apply Hrefs. exact Hr0.
        -- exists uitems. split; [| exact Hrefs].
           rewrite list_lookup_insert_ne by exact Hne. exact HU.
      * intros l Hl HlU Hlr. rewrite list_lookup_insert_ne; [apply Hsame; assumption |].
        intros ->. destruct (Hrefs l Hrin) as [H | H]; [exact (Hlr H) | lia].
  - destruct (argon2id e _ _) as [encoded|]; [| discriminate].
    inversion Hstep; subst s'. clear Hstep. unfold created_state, framed. cbn [st_heap].
    set (h := st_heap s) in *.
    assert (Hlen2 : length ((h ++ [OList [VStr (default_group cfg)]])
                              ++ [new_record u encoded em (length h)]) = S (S (length h))).
    { rewrite !length_app. simpl. lia. }
    rewrite length_insert, Hlen2. split; [lia |]. split.
    + exists (uitems ++ [(VStr u, VRef (S (length h)))]).
      split; [apply list_lookup_insert_eq; lia |].
      intros r. rewrite refs_of_app, elem_of_app. simpl.
      intros [H | H]; [apply Hrefs; exact H |].
      apply list_elem_of_singleton in H. right. lia.
    + intros l Hl HlU Hlr. rewrite list_lookup_insert_ne by congruence.
      rewrite !lookup_app_l by (rewrite ?length_app; simpl; lia).
      apply Hsame; assumption.
Qed.

Lemma loop_framed cfg e h0 U refs0 src :
  forall s s',
    framed h0 U refs0 s ->
    sync_loop cfg e (VRef U) src s = Ok s' ->
    framed h0 U refs0 s'.
Proof.
  induction src as [|x src IH]; intros s s' Hfr; simpl.
  - intros H. inversion H; subst. exact Hfr.
  - destruct (sync_one cfg e (VRef U) x s) as [s0|] eqn:Hstep; cbn [bind]; [| discriminate].
    apply IH. eapply step_framed; [exact Hfr | exact Hstep].
Qed.

(** C9, as amended.  Let the loaded document be a mapping whose users
    entry (a new empty mapping when the key is absent) is a mapping, and
    let the document itself be neither that users mapping nor one of the
    values bound in it.  Then a pass that is no dry run, finds changes
    and whose write succeeds hands the loaded document back with only its
    users entry rebound: every entry under another top-level key is
    written back bound to the value it was loaded with, and every loaded
    object other than the document, the users mapping and the values
    bound in that mapping (its records) is written back as it was.  So
    the content under another key is unchanged as long as it reaches none
    of these objects, that is, unless it is an alias of the document, of
    the users mapping or of a record. *)
Theorem other_keys_written_back cfg e w h D ditems U uitems created updated ok w' :
  load_authelia_users w = (h, VRef D) ->
  h !! D = Some (ODict ditems) ->
  match dict_find "users" ditems with
  | Some v => v
  | None => VRef (length h)
  end = VRef U ->
  (h ++ [ODict []]) !! U = Some (ODict uitems) ->
  D <> U ->
  D ∉ refs_of uitems ->
  dry_run cfg = false ->
  write_failure e = None ->
  sync_users cfg e w = (Ok (Synced created updated ok), w') ->
  exists h' ditems',
    users_file w' = FParsed h' (VRef D) /\
    h' !! D = Some (ODict ditems') /\
    ditems' = dict_set "users" (VRef U) ditems /\
    (forall kv, In kv ditems -> str_eq (fst kv) "users" = false -> In kv ditems') /\
    (forall l, l < length h -> l <> D -> l <> U -> l ∉ refs_of uitems ->
               h' !! l = h !! l) /\
    (forall fuel v,
        (forall l, In l (visited fuel h v) ->
                   l < length h /\ l <> D /\ l <> U /\ l ∉ refs_of uitems) ->
        reify fuel h' v = reify fuel h v).
Proof.
  intros Hload HD Husers HU HDU HDrefs Hdry Hwrite Hpass.
  pose proof (lookup_in_store _ _ _ HD) as HDlt.
  unfold sync_users in Hpass. rewrite Hload in Hpass.
  unfold sync_loaded in Hpass. cbn [alloc] in Hpass.
  assert (Hget : py_get (h ++ [ODict []]) (VRef D) "users" (VRef (length h)) = Ok (VRef U)).
  { unfold py_get. rewrite lookup_alloc_old by exact HDlt. rewrite HD.
    destruct (dict_find "users" ditems); rewrite Husers; reflexivity. }
  rewrite Hget in Hpass.
  destruct (get_wizarr_users w) as [|x0 src0]; [discriminate |].
  set (h1 := h ++ [ODict []]) in *.
  assert (Hfr0 : framed h1 U (refs_of uitems)
                   {| st_heap := h1; new_users := 0; updated_users := 0; cursor := 0 |}).
  { split; [reflexivity |]. split; [exists uitems; auto | reflexivity]. }
  destruct (sync_loop cfg e (VRef U) (x0 :: src0) _) as [s|] eqn:Hloop; [| discriminate].
  pose proof (loop_framed cfg e h1 U (refs_of uitems) _ _ _ Hfr0 Hloop)
    as (_ & _ & Hsame).
  assert (Hold : forall l, l < length h -> l <> U -> l ∉ refs_of uitems ->
                           st_heap s !! l = h !! l).
  { intros l Hl HlU Hlr. rewrite Hsame; try assumption.
    - apply lookup_alloc_old. exact Hl.
    - unfold h1. rewrite length_app. simpl. lia. }
  destruct (Nat.ltb 0 (new_users s) || Nat.ltb 0 (updated_users s)); [| discriminate].
  assert (HDs : st_heap s !! D = Some (ODict ditems)).
  { rewrite Hold by assumption. exact HD. }
  unfold py_setitem in Hpass. rewrite HDs in Hpass.
  unfold save_authelia_users in Hpass. rewrite Hdry, Hwrite in Hpass.
  match type of Hpass with
  | context [restart_authelia_container cfg e ?w1] =>
      pose proof (restart_keeps_file cfg e w1) as Hfile;
      destruct (restart_authelia_container cfg e w1) as [ok2 w2]
  end.
  inversion Hpass; subst. cbn [snd users_file] in Hfile.
  exists (<[D := ODict (dict_set "users" (VRef U) ditems)]> (st_heap s)),
         (dict_set "users" (VRef U) ditems).
  split; [exact Hfile |].
  split; [apply list_lookup_insert_eq; eapply lookup_in_store; exact HDs |].
  split; [reflexivity |].
  split; [intros kv Hin Hk; apply dict_set_others; assumption |].
  assert (Hobj : forall l, l < length h -> l <> D -> l <> U -> l ∉ refs_of uitems ->
            <[D := ODict (dict_set "users" (VRef U) ditems)]> (st_heap s) !! l = h !! l).
  { intros l Hl HlD HlU Hlr. rewrite list_lookup_insert_ne by congruence.
    apply Hold; assumption. }
  split; [exact Hobj |].
  intros fuel v Hvis. apply reify_agree. intros l Hl.
  destruct (Hvis l Hl) as (H1 & H2 & H3 & H4). apply Hobj; assumption.
Qed.

End Frame.

(** ** Concrete runs *)

Module Checks.
Import Re Validators Store Step Loop Mapping Pass.

(** C6.  [validate_username] accepts ["abc\n"], a string with a
    character outside [[A-Za-z0-9._-]], and accepts a string of length 33:
    the pattern's [$] also matches before a final newline. *)
Theorem validate_username_accepts_newline :
  validate_username (String "a" (String "b" (String "c" (String newline "")))) = true /\
  cls_username newline = false /\
  validate_username ("abcdefghijklmnopqrstuvwxyz012345" ++ String newline "") = true /\
  String.length ("abcdefghijklmnopqrstuvwxyz012345" ++ String newline "") = 33.
Proof. repeat split; reflexivity. Qed.

(** C7.  [validate_email] accepts ["a@b.com\n"], in which the text
    after the last dot is ["com\n"], not a label made of letters. *)
Theorem validate_email_accepts_newline :
  validate_email ("a@b.com" ++ String newline "") = true /\
  last_label (list_ascii_of_string ("a@b.com" ++ String newline ""))
    = list_ascii_of_string ("com" ++ String newline "") /\
  forallb is_alpha (list_ascii_of_string ("com" ++ String newline "")) = false.
Proof. repeat split; reflexivity. Qed.



Lemma existing_user_witness :
  exists s',
    sync_one sample_cfg sample_env (VRef 0) ("bob", "new@x.com")
      (start (bob_store "old@x.com")) = Ok s' /\
    new_users s' = 0.
Proof.
  destruct (Existing.existing_user_email_only sample_cfg sample_env
              (start (bob_store "old@x.com")) 0 1
              [(VStr "bob", VRef 1)]
              [(VStr "displayname", VStr "Bob"); (VStr "password", VStr sample_hash);
               (VStr "email", VStr "old@x.com"); (VStr "groups", VRef 2)]
              "bob" "new@x.com")
    as (s' & H1 & H2 & _); try reflexivity.
  exists s'. split; assumption.
Defined.

Lemma missing_email_witness :
  sync_one sample_cfg sample_env (VRef 0) ("bob", "new@x.com")
    (start [ODict [(VStr "bob", VRef 1)]; ODict [(VStr "password", VStr sample_hash)]]) =
  Ok {| st_heap := [ODict [(VStr "bob", VRef 1)];
                    ODict [(VStr "password", VStr sample_hash);
                           (VStr "email", VStr "new@x.com")]];
        new_users := 0; updated_users := 1; cursor := 0 |}.
Proof.
  apply (Existing.missing_email_is_updated sample_cfg sample_env
           (start [ODict [(VStr "bob", VRef 1)]; ODict [(VStr "password", VStr sample_hash)]])
           0 1 [(VStr "bob", VRef 1)] [(VStr "password", VStr sample_hash)]
           "bob" "new@x.com"); reflexivity.
Defined.

(** Two valid entries for one username with different emails: the
    second run over the target of the first still counts two updates. *)
Lemma duplicate_usernames_counterexample :
  exists s1 s2,
    sync_loop sample_cfg sample_env (VRef 0)
      [("bob", "a@x.com"); ("bob", "b@x.com")] (start [ODict []]) = Ok s1 /\
    sync_loop sample_cfg sample_env (VRef 0)
      [("bob", "a@x.com"); ("bob", "b@x.com")] (start (st_heap s1)) = Ok s2 /\
    updated_users s2 = 2 /\ updated_users s2 <> 0.
Proof.
  eexists _, _. split; [vm_compute; reflexivity |].
  split; [vm_compute; reflexivity |]. split; [reflexivity | discriminate].
Defined.

(** Two usernames bound to one record (a YAML alias): every run updates
    both again. *)
Lemma shared_record_not_idempotent :
  exists s1 s2,
    sync_loop sample_cfg sample_env (VRef 0)
      [("alice", "a@x.com"); ("bob", "b@x.com")]
      (start [ODict [(VStr "alice", VRef 1); (VStr "bob", VRef 1)];
              ODict [(VStr "email", VStr "a@x.com")]]) = Ok s1 /\
    sync_loop sample_cfg sample_env (VRef 0)
      [("alice", "a@x.com"); ("bob", "b@x.com")] (start (st_heap s1)) = Ok s2 /\
    updated_users s2 = 2.
Proof.
  eexists _, _. split; [vm_compute; reflexivity |].
  split; [vm_compute; reflexivity | reflexivity].
Qed.

Lemma second_run_witness :
  exists s1,
    sync_loop sample_cfg sample_env (VRef 0)
      [("alice", "alice@example.com"); ("bob", "new@x.com"); ("a!b", "a@x.com")]
      (start (bob_store "old@x.com")) = Ok s1 /\
    new_users s1 = 1 /\ updated_users s1 = 1 /\
    sync_loop sample_cfg sample_env (VRef 0)
      [("alice", "alice@example.com"); ("bob", "new@x.com"); ("a!b", "a@x.com")]
      (start (st_heap s1)) = Ok (start (st_heap s1)).
Proof.
  eexists. split; [vm_compute; reflexivity |].
  split; [reflexivity |]. split; [reflexivity |].
  apply (Idempotence.second_run_is_noop sample_cfg sample_env sample_env 0
           [("alice", "alice@example.com"); ("bob", "new@x.com"); ("a!b", "a@x.com")]
           (bob_store "old@x.com") [(VStr "bob", VRef 1)] 0 0).
  - reflexivity.
  - split; [apply NoDup_singleton |]. split.
    + intros H. apply list_elem_of_singleton in H. discriminate H.
    + repeat constructor.
  - intros u e1 e2 H1 H2 _ _. simpl in H1, H2.
    destruct H1 as [H1 | [H1 | [H1 | []]]]; destruct H2 as [H2 | [H2 | [H2 | []]]];
      congruence.
  - vm_compute. reflexivity.
Defined.

Lemma unusable_target_witness :
  load_authelia_users
    (world_of [("alice", Some "alice@example.com"); ("carol", None)] FMalformed)
    = empty_store [] /\
  fst (sync_users sample_cfg sample_env
         (world_of [("alice", Some "alice@example.com"); ("carol", None)] FMalformed))
    = Ok (Synced 1 0 true) /\
  holds_created sample_cfg sample_env [("alice", "alice@example.com")]
    (users_file
       (snd (sync_users sample_cfg sample_env
               (world_of [("alice", Some "alice@example.com"); ("carol", None)]
                         FMalformed)))).
Proof.
  destruct (Fresh.unusable_target_is_empty sample_cfg sample_env
              (world_of [("alice", Some "alice@example.com"); ("carol", None)] FMalformed))
    as (H1 & _ & _ & H4); [right; right; reflexivity |].
  split; [exact H1 |]. split; [reflexivity |].
  destruct (sync_users sample_cfg sample_env
              (world_of [("alice", Some "alice@example.com"); ("carol", None)] FMalformed))
    as [[r | x] w'] eqn:Hrun.
  - destruct H4 as [_ H4]. cbn [snd].
    apply H4; [reflexivity | reflexivity | vm_compute; discriminate].
  - vm_compute in Hrun. discriminate Hrun.
Defined.

Lemma hashing_error_witness :
  sync_users sample_cfg failing_env
    (world_of [("alice", Some "alice@example.com"); ("bob", Some "bob@x.com")] FMissing)
  = (Raise HashingError,
     world_of [("alice", Some "alice@example.com"); ("bob", Some "bob@x.com")] FMissing)
  /\
  main_once sample_cfg failing_env
    (world_of [("alice", Some "alice@example.com"); ("bob", Some "bob@x.com")] FMissing)
  = (1%Z,
     world_of [("alice", Some "alice@example.com"); ("bob", Some "bob@x.com")] FMissing).
Proof.
  eapply (hashing_error_aborts sample_cfg failing_env _
            [ODict []; ODict [(VStr "users", VRef 0)]] (VRef 1) (VRef 0)
            [("alice", "alice@example.com")] "bob" "bob@x.com" []).
  - reflexivity.
  - reflexivity.
  - reflexivity.
  - vm_compute. reflexivity.
  - reflexivity.
  - reflexivity.
  - reflexivity.
  - reflexivity.
Defined.

(** With no source user and a users file that holds a YAML list, the
    pass raises and the single-run process exits 1. *)
Lemma empty_source_counterexample :
  get_wizarr_users
    {| wizarr_db := DbMissing; users_file := FParsed [OList [VStr "alice"]] (VRef 0);
       writes := 0; restarts := 0 |} = [] /\
  sync_users sample_cfg sample_env
    {| wizarr_db := DbMissing; users_file := FParsed [OList [VStr "alice"]] (VRef 0);
       writes := 0; restarts := 0 |}
  = (Raise AttributeError,
     {| wizarr_db := DbMissing; users_file := FParsed [OList [VStr "alice"]] (VRef 0);
        writes := 0; restarts := 0 |}) /\
  fst (main_once sample_cfg sample_env
         {| wizarr_db := DbMissing; users_file := FParsed [OList [VStr "alice"]] (VRef 0);
            writes := 0; restarts := 0 |}) = 1%Z /\
  fst (main_once sample_cfg sample_env
         {| wizarr_db := DbMissing; users_file := FParsed [OList [VStr "alice"]] (VRef 0);
            writes := 0; restarts := 0 |}) <> 0%Z.
Proof. repeat split; try reflexivity. discriminate. Defined.

Lemma empty_source_witness :
  main_once sample_cfg sample_env (world_of [("carol", None)] (FParsed (bob_store "b@x.com") (VRef 0)))
  = (0%Z, world_of [("carol", None)] (FParsed (bob_store "b@x.com") (VRef 0))).
Proof.
  destruct (empty_source_pass sample_cfg sample_env
              (world_of [("carol", None)] (FParsed (bob_store "b@x.com") (VRef 0))))
    as (_ & H); [reflexivity |].
  apply H. exists 0, [(VStr "bob", VRef 1)]. split; reflexivity.
Defined.

(** With [backup] an alias of the users mapping, the content under
    [backup] is written back changed. *)
Lemma alias_counterexample :
  file_key "backup" aliased_file =
    Some (TDict [(TStr "bob", TDict [(TStr "email", TStr "old@x.com")])]) /\
  file_key "backup"
    (users_file (snd (sync_users sample_cfg sample_env
                        (world_of [("bob", Some "new@x.com")] aliased_file)))) =
    Some (TDict [(TStr "bob", TDict [(TStr "email", TStr "new@x.com")])]) /\
  file_key "backup" aliased_file <>
  file_key "backup"
    (users_file (snd (sync_users sample_cfg sample_env
                        (world_of [("bob", Some "new@x.com")] aliased_file)))).
Proof. repeat split; try reflexivity. discriminate. Defined.

(** When a record of the users mapping is the document itself, updating
    that record's email rebinds the top-level key [email]. *)
Lemma record_is_document_rebinds_email :
  file_key "email" cyclic_file = Some (TStr "keep") /\
  file_key "email"
    (users_file (snd (sync_users sample_cfg sample_env
                        (world_of [("bob", Some "new@x.com")] cyclic_file)))) =
    Some (TStr "new@x.com").
Proof. split; reflexivity. Qed.

Lemma other_keys_witness :
  file_key "backup"
    (users_file (snd (sync_users sample_cfg sample_env
                        (world_of [("bob", Some "new@x.com")] unaliased_file)))) =
  file_key "backup" unaliased_file.
Proof.
  destruct (Frame.other_keys_written_back sample_cfg sample_env
              (world_of [("bob", Some "new@x.com")] unaliased_file)
              [ODict [(VStr "users", VRef 1); (VStr "backup", VRef 3)];
               ODict [(VStr "bob", VRef 2)];
               ODict [(VStr "email", VStr "old@x.com")];
               ODict [(VStr "bob", VStr "kept")]]
              0 [(VStr "users", VRef 1); (VStr "backup", VRef 3)]
              1 [(VStr "bob", VRef 2)] 0 1 true
              (snd (sync_users sample_cfg sample_env
                      (world_of [("bob", Some "new@x.com")] unaliased_file))))
    as (h' & ditems' & Hfile & HD & Hitems & _ & _ & Hcontent);
    [reflexivity | reflexivity | reflexivity | reflexivity | discriminate | |
     reflexivity | reflexivity | reflexivity |].
  - intros H. apply list_elem_of_singleton in H. discriminate H.
  - rewrite Hfile. unfold file_key at 1. rewrite HD, Hitems.
    change (dict_find "backup"
              (dict_set "users" (VRef 1) [(VStr "users", VRef 1); (VStr "backup", VRef 3)]))
      with (Some (VRef 3)).
    cbv beta iota. rewrite (Hcontent 4 (VRef 3)); [reflexivity |].
    intros l Hl. cbn in Hl. destruct Hl as [<- | []].
    split; [simpl; lia |]. split; [discriminate |]. split; [discriminate |].
    intros H. apply list_elem_of_singleton in H. discriminate H.
Defined.

End Checks.

(** * Further properties of the program *)

(** ** What the validators accept *)

Module Accepted.
Import Re Validators.

(** X1. [validate_username] accepts exactly the strings of 3 to 32
    characters of [[a-zA-Z0-9._-]], and those strings followed by one
    newline. *)
Theorem username_language u :
  validate_username u = true <->
  username_ok (list_ascii_of_string u) \/
  exists s0, list_ascii_of_string u = s0 ++ [newline] /\ username_ok s0.
Proof. apply validate_username_iff. Qed.

(** X2. [validate_email] accepts exactly the strings
    [local@domain.tld] (a non-empty local part over [[a-zA-Z0-9._%+-]], a
    non-empty domain part over [[a-zA-Z0-9.-]], a dot, at least two
    letters), and those strings followed by one newline. *)
Theorem email_language e :
  validate_email e = true <->
  email_ok (list_ascii_of_string e) \/
  exists s0, list_ascii_of_string e = s0 ++ [newline] /\ email_ok s0.
Proof. apply validate_email_iff. Qed.

Lemma count_none cls (c : ascii) s :
  cls c = false -> all_in cls s -> count_occ ascii_dec s c = 0.
Proof.
  intros Hc Hall. apply count_occ_not_In. exact (all_in_not_in cls c s Hc Hall).
Qed.

Lemma email_ok_one_at s : email_ok s -> count_occ ascii_dec s "@"%char = 1.
Proof.
  intros (l & d & t & -> & _ & Hl & _ & Hd & _ & Ht).
  rewrite count_occ_app. simpl. rewrite count_occ_app. simpl.
  rewrite (count_none cls_local) by (reflexivity || assumption).
  rewrite (count_none cls_domain) by (reflexivity || assumption).
  rewrite (count_none is_alpha) by (reflexivity || assumption).
  reflexivity.
Qed.

(** X3. An email that [validate_email] accepts contains exactly one
    [@]. *)
Theorem accepted_email_has_one_at e :
  validate_email e = true ->
  count_occ ascii_dec (list_ascii_of_string e) "@"%char = 1.
Proof.
  intros H. apply validate_email_iff in H as [H | (s0 & Hs & H)].
  - apply email_ok_one_at. exact H.
  - rewrite Hs, count_occ_app. simpl. rewrite (email_ok_one_at s0 H). reflexivity.
Qed.

Lemma accepted_email_has_one_at_witness :
  count_occ ascii_dec (list_ascii_of_string "alice@example.com") "@"%char = 1.
Proof. apply accepted_email_has_one_at. reflexivity. Defined.

End Accepted.

(** ** Generated passwords and their log *)

Module Passwords.

Lemma chars_of_append (s1 s2 : string) :
  list_ascii_of_string (s1 ++ s2)%string =
  list_ascii_of_string s1 ++ list_ascii_of_string s2.
Proof. induction s1 as [|c s1 IH]; simpl; [reflexivity | rewrite IH; reflexivity]. Qed.

Lemma chars_of_substring (s : string) :
  forall n m,
    list_ascii_of_string (String.substring n m s) =
    take m (drop n (list_ascii_of_string s)).
Proof.
  induction s as [|c s IH]; intros [|n] [|m]; simpl; try reflexivity.
  - rewrite IH. reflexivity.
  - apply IH.
  - apply IH.
Qed.

Lemma length_chars (s : string) : length (list_ascii_of_string s) = String.length s.
Proof. induction s as [|c s IH]; simpl; [reflexivity | rewrite IH; reflexivity]. Qed.

Lemma repeat_replicate {A} (x : A) n : repeat x n = replicate n x.
Proof. induction n as [|n IH]; simpl; [reflexivity | rewrite IH; reflexivity]. Qed.

Lemma chars_of_stars n : list_ascii_of_string (stars n) = replicate n "*"%char.
Proof.
  unfold stars. rewrite list_ascii_of_string_of_list_ascii. apply repeat_replicate.
Qed.

Lemma choice_in_alphabet r : In (choice alphabet r) (list_ascii_of_string alphabet).
Proof.
  unfold choice. apply nth_In. rewrite length_chars.
  apply Nat.mod_upper_bound. discriminate.
Qed.

Lemma generate_password_facts e n c :
  String.length (fst (generate_password e n c)) = Nat.max n 8 /\
  Forall (fun ch => In ch (list_ascii_of_string alphabet))
         (list_ascii_of_string (fst (generate_password e n c))) /\
  snd (generate_password e n c) = c + Nat.max n 8.
Proof.
  unfold generate_password. cbn [fst snd].
  assert (Hmax : (if Nat.ltb n 8 then 8 else n) = Nat.max n 8).
  { destruct (Nat.ltb_spec n 8); lia. }
  rewrite Hmax. split; [| split; [| reflexivity]].
  - rewrite <- length_chars, list_ascii_of_string_of_list_ascii, length_map, length_seq.
    reflexivity.
  - rewrite list_ascii_of_string_of_list_ascii. apply Forall_forall.
    intros ch Hch. apply list_elem_of_In, in_map_iff in Hch as (i & <- & _).
    apply choice_in_alphabet.
Qed.

Lemma lookup_map_seq {A : Type} (f : nat -> A) (c m k : nat) :
  k < m -> map f (seq c m) !! k = Some (f (c + k)).
Proof.
  revert c k. induction m as [|m IH]; intros c k Hk; [lia |].
  destruct k as [|k]; cbn [seq map].
  - rewrite Nat.add_0_r. reflexivity.
  - change ((f c :: map f (seq (S c) m)) !! S k) with (map f (seq (S c) m) !! k).
    rewrite IH by lia. f_equal. f_equal. lia.
Qed.

(** X4. [generate_password] returns [max(length, 8)] characters, every
    one of them from the alphabet of letters, digits and [!@#$%^&*]: the
    [k]-th character is the character of that 70-character alphabet at
    index [draw mod 70], for the [k]-th draw not read before.  The
    password is thus a function of exactly these [max(length, 8)] draws
    (two random sources that agree on them give the same result), and the
    next unread draw is the one after them. *)
Theorem generate_password_shape e n c :
  String.length (fst (generate_password e n c)) = Nat.max n 8 /\
  Forall (fun ch => In ch (list_ascii_of_string alphabet))
         (list_ascii_of_string (fst (generate_password e n c))) /\
  (forall k, k < Nat.max n 8 ->
     list_ascii_of_string (fst (generate_password e n c)) !! k =
     Some (nth (entropy e (c + k) mod 70)
               (list_ascii_of_string
                  "abcdefghijklmnopqrstuvwxyzABCDEFGHIJKLMNOPQRSTUVWXYZ0123456789!@#$%^&*")
               " "%char)) /\
  (forall e',
     (forall k, k < Nat.max n 8 -> entropy e' (c + k) = entropy e (c + k)) ->
     generate_password e' n c = generate_password e n c) /\
  snd (generate_password e n c) = c + Nat.max n 8.
Proof.
  destruct (generate_password_facts e n c) as (Hlen & Hall & Hnext).
  split; [exact Hlen |]. split; [exact Hall |].
  assert (Hmax : (if Nat.ltb n 8 then 8 else n) = Nat.max n 8).
  { destruct (Nat.ltb_spec n 8); lia. }
  split; [| split; [| exact Hnext]].
  - intros k Hk. unfold generate_password. cbn [fst].
    rewrite list_ascii_of_string_of_list_ascii, Hmax.
    rewrite lookup_map_seq by exact Hk. reflexivity.
  - intros e' Hsame. unfold generate_password. rewrite Hmax.
    f_equal. f_equal. apply map_ext_in. intros i Hi. apply in_seq in Hi.
    replace i with (c + (i - c)) by lia. rewrite Hsame by lia. reflexivity.
Qed.

Lemma chars_of_obfuscate p :
  list_ascii_of_string (obfuscate p) =
  let l := list_ascii_of_string p in
  if Nat.ltb 6 (length l)
  then take 2 l ++ replicate (length l - 4) "*"%char ++ drop (length l - 2) l
  else replicate (length l) "*"%char.
Proof.
  unfold obfuscate. cbv zeta. rewrite length_chars.
  destruct (Nat.ltb 6 (String.length p)).
  - rewrite !chars_of_append, !chars_of_substring, chars_of_stars. simpl drop at 1.
    f_equal. f_equal. apply take_ge. rewrite length_drop, length_chars. lia.
  - apply chars_of_stars.
Qed.

(** X5. The obfuscated form of a password has the length of the
    password.  For more than 6 characters it shows the first two and the
    last two characters and a star in every other place; for up to 6
    characters it is all stars. *)
Theorem obfuscate_masks p :
  length (list_ascii_of_string (obfuscate p)) = length (list_ascii_of_string p) /\
  forall i,
    i < length (list_ascii_of_string p) ->
    list_ascii_of_string (obfuscate p) !! i =
    if Nat.ltb 6 (length (list_ascii_of_string p))
       && (Nat.ltb i 2 || Nat.leb (length (list_ascii_of_string p) - 2) i)
    then list_ascii_of_string p !! i
    else Some "*"%char.
Proof.
  rewrite chars_of_obfuscate. cbv zeta. set (l := list_ascii_of_string p).
  destruct (Nat.ltb_spec 6 (length l)) as [Hlong | Hshort]; cbn [andb].
  - split.
    + rewrite !length_app, length_take, length_replicate, length_drop. lia.
    + intros i Hi. destruct (Nat.ltb_spec i 2) as [Hi2 | Hi2]; cbn [orb].
      * rewrite lookup_app_l by (rewrite length_take; lia).
        apply lookup_take_lt. exact Hi2.
      * rewrite lookup_app_r by (rewrite length_take; lia).
        rewrite length_take, Nat.min_l by lia.
        destruct (Nat.leb_spec (length l - 2) i) as [Hlast | Hmid].
        -- rewrite lookup_app_r by (rewrite length_replicate; lia).
           rewrite length_replicate, lookup_drop. f_equal. lia.
        -- rewrite lookup_app_l by (rewrite length_replicate; lia).
           apply lookup_replicate_2. lia.
  - split; [apply length_replicate |].
    intros i Hi. apply lookup_replicate_2. exact Hi.
Qed.

(** X6. The records [_log_password_securely] sends to the main logger
    are the same for two passwords of the same length (more than 6) that
    agree on their first two and last two characters; and without a
    secure handler nothing is sent to the secure logger. *)
Theorem main_log_hides_password secure path u p1 p2 :
  String.length p1 = String.length p2 ->
  6 < String.length p1 ->
  String.substring 0 2 p1 = String.substring 0 2 p2 ->
  String.substring (String.length p1 - 2) 2 p1 =
    String.substring (String.length p2 - 2) 2 p2 ->
  fst (log_password_securely secure path u p1) =
    fst (log_password_securely secure path u p2) /\
  snd (log_password_securely false path u p1) = [].
Proof.
  intros Hlen Hlong Hfirst Hlast.
  assert (Hobf : obfuscate p1 = obfuscate p2).
  { unfold obfuscate. rewrite <- Hlen in Hlast |- *. rewrite Hfirst, Hlast. reflexivity. }
  unfold log_password_securely. cbv zeta. rewrite Hobf.
  destruct secure; split; reflexivity.
Qed.

Lemma main_log_hides_password_witness :
  fst (log_password_securely true "/app/secure.log" "alice" "abcdefgh12345678") =
  fst (log_password_securely true "/app/secure.log" "alice" "abXXXXXXXXXXXX78").
Proof.
  apply (main_log_hides_password true "/app/secure.log" "alice"
           "abcdefgh12345678" "abXXXXXXXXXXXX78"); try reflexivity.
  simpl. lia.
Defined.

Lemma to_lower_idem c : to_lower (to_lower c) = to_lower c.
Proof. destruct c as [[] [] [] [] [] [] [] []]; reflexivity. Qed.

Lemma to_lower_upper c : to_lower (to_upper c) = to_lower c.
Proof. destruct c as [[] [] [] [] [] [] [] []]; reflexivity. Qed.

Lemma lower_title_from b s : lower (title_from b s) = lower s.
Proof.
  revert b. induction s as [|c s IH]; intros b; [reflexivity |].
  cbn [title_from lower]. rewrite IH.
  destruct b; [rewrite to_lower_idem | rewrite to_lower_upper]; reflexivity.
Qed.

(** X23. The display name given to a created user, [username.title()],
    is the username up to the case of its letters, and has its length. *)
Theorem displayname_is_username_up_to_case username :
  lower (title username) = lower username /\
  String.length (title username) = String.length username.
Proof.
  split; [apply lower_title_from |].
  unfold title. generalize false.
  induction username as [|c s IH]; intros b; [reflexivity |].
  cbn [title_from String.length]. rewrite IH. reflexivity.
Qed.

End Passwords.

(** ** What the loop does to the store and the counters *)

Module Effects.
Import Store Step Loop Mapping.

(** Every way a step returns: nothing changed, one email overwritten, or
    one user created in a mapping that did not have the username. *)
Lemma sync_one_ok cfg e au x s s' :
  sync_one cfg e au x s = Ok s' ->
  s' = s \/
  valid_user x = true /\
  ((exists U uitems r ritems,
      au = VRef U /\ st_heap s !! U = Some (ODict uitems) /\
      dict_find (fst x) uitems = Some (VRef r) /\
      st_heap s !! r = Some (ODict ritems) /\
      s' = updated_state s r ritems (snd x)) \/
   (exists U uitems encoded,
      au = VRef U /\ st_heap s !! U = Some (ODict uitems) /\
      dict_find (fst x) uitems = None /\
      s' = created_state cfg s U uitems (fst x) (snd x) encoded)).
Proof.
  destruct x as [u em]. intros Hstep.
  destruct (valid_user (u, em)) eqn:Hv.
  2:{ rewrite (sync_one_invalid _ _ _ _ _ Hv) in Hstep. inversion Hstep. auto. }
  destruct au as [| b | z | str | U].
  1-4: unfold valid_user in Hv; cbn [fst snd] in Hv;
       apply andb_true_iff in Hv as [Hu Hem];
       unfold sync_one in Hstep; cbn [fst snd] in Hstep;
       rewrite Hu, Hem in Hstep; cbn [negb py_contains bind] in Hstep;
       try discriminate.
  - (* a str: [in] is the substring test, and indexing or assigning raises *)
    destruct (is_substring u str); cbn [bind py_getitem] in Hstep; [discriminate |].
    destruct (generate_password e 16 (cursor s)) as [password c1].
    destruct (hash_password e password c1) as [[ph c2]|]; cbn [bind alloc py_setitem] in Hstep;
      discriminate.
  - destruct (st_heap s !! U) as [[uitems | litems]|] eqn:HU.
    + rewrite (sync_one_cases cfg e s U uitems u em Hv HU) in Hstep.
      destruct (dict_find u uitems) as [v|] eqn:Hfind.
      * destruct v as [| | | | r]; try discriminate.
        destruct (st_heap s !! r) as [[ritems|]|] eqn:Hr; try discriminate.
        destruct (str_eq (stored_email ritems) em); inversion Hstep; [auto |].
        right. split; [reflexivity |]. left. exists U, uitems, r, ritems. auto.
      * destruct (argon2id e _ _) as [encoded|]; inversion Hstep.
        right. split; [reflexivity |]. right. exists U, uitems, encoded. auto.
    + (* a list: indexing or assigning with a str raises *)
      unfold valid_user in Hv. cbn [fst snd] in Hv.
      apply andb_true_iff in Hv as [Hu Hem].
      unfold sync_one in Hstep. cbn [fst snd] in Hstep.
      rewrite Hu, Hem in Hstep. cbn [negb] in Hstep.
      unfold py_contains, py_getitem in Hstep. rewrite HU in Hstep.
      destruct (existsb _ litems); cbn [bind] in Hstep; [discriminate |].
      destruct (generate_password e 16 (cursor s)) as [password c1].
      destruct (hash_password e password c1) as [[ph c2]|]; cbn [bind alloc] in Hstep;
        [| discriminate].
      unfold py_setitem in Hstep.
      rewrite !lookup_app_l in Hstep
        by (rewrite ?length_app; apply lookup_lt_Some in HU; simpl; lia).
      rewrite HU in Hstep. discriminate.
    + unfold valid_user in Hv. cbn [fst snd] in Hv.
      apply andb_true_iff in Hv as [Hu Hem].
      unfold sync_one in Hstep. cbn [fst snd] in Hstep.
      rewrite Hu, Hem in Hstep. cbn [negb] in Hstep.
      unfold py_contains in Hstep. rewrite HU in Hstep. discriminate.
Qed.

(** X7. Source entries with an invalid username or email do not
    matter: the loop over a source list is the loop over its valid
    entries. *)
Theorem sync_loop_skips_invalid cfg e au src s :
  sync_loop cfg e au src s = sync_loop cfg e au (List.filter valid_user src) s.
Proof.
  revert s. induction src as [|x src IH]; intros s; [reflexivity |].
  cbn [List.filter]. destruct (valid_user x) eqn:Hv.
  - cbn [sync_loop]. destruct (sync_one cfg e au x s); cbn [bind]; [apply IH | reflexivity].
  - cbn [sync_loop]. rewrite (sync_one_invalid _ _ _ _ _ Hv). cbn [bind]. apply IH.
Qed.

Lemma sync_one_counts cfg e au x s s' :
  sync_one cfg e au x s = Ok s' ->
  (new_users s' = new_users s /\ updated_users s' = updated_users s) \/
  valid_user x = true /\
  ((new_users s' = new_users s + 1 /\ updated_users s' = updated_users s) \/
   (new_users s' = new_users s /\ updated_users s' = updated_users s + 1)).
Proof.
  intros H. apply sync_one_ok in H as [-> | [Hv [H | H]]]; [auto | |].
  - destruct H as (U & uitems & r & ritems & _ & _ & _ & _ & ->). simpl. auto.
  - destruct H as (U & uitems & encoded & _ & _ & _ & ->). simpl. auto.
Qed.

(** X8. The two counters never decrease during the loop, and together
    they grow by at most the number of valid source entries: every valid
    entry accounts for at most one creation or one update. *)
Theorem counters_bounded cfg e au src s s' :
  sync_loop cfg e au src s = Ok s' ->
  new_users s <= new_users s' /\
  updated_users s <= updated_users s' /\
  (new_users s' - new_users s) + (updated_users s' - updated_users s)
    <= length (List.filter valid_user src).
Proof.
  revert s. induction src as [|x src IH]; intros s Hrun.
  - simpl in Hrun. inversion Hrun. simpl. lia.
  - simpl in Hrun. destruct (sync_one cfg e au x s) as [s1|] eqn:Hstep; [| discriminate].
    cbn [bind] in Hrun. specialize (IH s1 Hrun).
    apply sync_one_counts in Hstep. cbn [List.filter].
    destruct Hstep as [[Hn Hu] | [Hv [[Hn Hu] | [Hn Hu]]]].
    + destruct (valid_user x); simpl; lia.
    + rewrite Hv. simpl. lia.
    + rewrite Hv. simpl. lia.
Qed.

Lemma counters_bounded_witness :
  exists s',
    sync_loop sample_cfg sample_env (VRef 0)
      [("alice", "alice@example.com"); ("bob", "new@x.com"); ("a!b", "a@x.com")]
      (start (bob_store "old@x.com")) = Ok s' /\
    (new_users s' - 0) + (updated_users s' - 0) <= 2.
Proof.
  eexists. split; [vm_compute; reflexivity |].
  apply (counters_bounded sample_cfg sample_env (VRef 0)
           [("alice", "alice@example.com"); ("bob", "new@x.com"); ("a!b", "a@x.com")]
           (start (bob_store "old@x.com"))).
  vm_compute. reflexivity.
Defined.

Lemma only_email_refl src h l : only_email src h h l.
Proof.
  unfold only_email. destruct (h !! l) as [[items | items]|] eqn:Hl; auto.
  exists items. auto.
Qed.

Lemma only_email_trans src1 src2 h1 h2 h3 l :
  only_email src1 h1 h2 l -> only_email src2 h2 h3 l ->
  only_email (src1 ++ src2) h1 h3 l.
Proof.
  unfold only_email. destruct (h1 !! l) as [[items | items]|]; [| | auto].
  - intros (items2 & H2 & Hkeep2 & Hem2). rewrite H2.
    intros (items3 & H3 & Hkeep3 & Hem3). exists items3. split; [exact H3 |]. split.
    + intros k Hk. rewrite Hkeep3, Hkeep2 by exact Hk. reflexivity.
    + destruct Hem3 as [Hem3 | (u & em & Hin & Hv & Hem3)].
      * rewrite Hem3. destruct Hem2 as [Hem2 | (u & em & Hin & Hv & Hem2)]; [auto |].
        right. exists u, em. split; [apply in_or_app; auto | auto].
      * right. exists u, em. split; [apply in_or_app; auto | auto].
  - intros H2. rewrite H2. auto.
Qed.

Lemma step_only_email cfg e au x s s' l :
  sync_one cfg e au x s = Ok s' ->
  au <> VRef l ->
  only_email [x] (st_heap s) (st_heap s') l.
Proof.
  intros Hstep Hau. apply sync_one_ok in Hstep as [-> | [Hv [H | H]]].
  - apply only_email_refl.
  - destruct H as (U & uitems & r & ritems & _ & _ & _ & Hr & ->).
    unfold only_email, updated_state. cbn [st_heap].
    pose proof (lookup_in_store _ _ _ Hr) as Hrlt.
    destruct (Nat.eq_dec r l) as [<- | Hne].
    + rewrite Hr. exists (dict_set "email" (VStr (snd x)) ritems).
      split; [apply list_lookup_insert_eq; exact Hrlt |]. split.
      * intros k Hk. apply dict_find_set_ne. congruence.
      * right. destruct x as [u em]. exists u, em. cbn [snd].
        split; [left; reflexivity |]. split; [exact Hv | apply dict_find_set_eq].
    + rewrite list_lookup_insert_ne by exact Hne.
      destruct (st_heap s !! l) as [[items | items]|]; auto. exists items. auto.
  - destruct H as (U & uitems & encoded & -> & HU & _ & ->).
    assert (HUl : U <> l) by congruence.
    unfold only_email, created_state. cbn [st_heap].
    destruct (st_heap s !! l) as [o|] eqn:Hl; [| exact I].
    pose proof (lookup_in_store _ _ _ Hl) as Hllt.
    assert (Hsame : <[U := ODict (uitems ++ [(VStr (fst x), VRef (S (length (st_heap s))))])]>
                      ((st_heap s ++ [OList [VStr (default_group cfg)]])
                         ++ [new_record (fst x) encoded (snd x) (length (st_heap s))]) !! l
                    = Some o).
    { rewrite list_lookup_insert_ne by exact HUl.
      rewrite !lookup_app_l by (rewrite ?length_app; simpl; lia). exact Hl. }
    destruct o as [items | items]; [| exact Hsame].
    exists items. auto.
Qed.

(** X9. During the loop, an object other than the users mapping itself
    changes at most in one way: a dict may get its [email] entry set to
    the email of a valid source entry; every other entry of every dict
    (password, displayname, groups) and every list stay as they are. *)
Theorem loop_only_changes_emails cfg e au src s s' l :
  sync_loop cfg e au src s = Ok s' ->
  au <> VRef l ->
  only_email src (st_heap s) (st_heap s') l.
Proof.
  revert s. induction src as [|x src IH]; intros s Hrun Hau.
  - simpl in Hrun. inversion Hrun. apply only_email_refl.
  - simpl in Hrun. destruct (sync_one cfg e au x s) as [s1|] eqn:Hstep; [| discriminate].
    cbn [bind] in Hrun.
    apply (only_email_trans [x] src _ (st_heap s1)).
    + eapply step_only_email; eassumption.
    + apply IH; assumption.
Qed.

Lemma loop_only_changes_emails_witness :
  exists s',
    sync_loop sample_cfg sample_env (VRef 0)
      [("alice", "alice@example.com"); ("bob", "new@x.com")]
      (start (bob_store "old@x.com")) = Ok s' /\
    only_email [("alice", "alice@example.com"); ("bob", "new@x.com")]
      (bob_store "old@x.com") (st_heap s') 1.
Proof.
  eexists. split; [vm_compute; reflexivity |].
  apply (loop_only_changes_emails sample_cfg sample_env (VRef 0)
           [("alice", "alice@example.com"); ("bob", "new@x.com")]
           (start (bob_store "old@x.com"))).
  - vm_compute. reflexivity.
  - discriminate.
Defined.

Lemma dict_find_none_key u items :
  dict_find u items = None -> VStr u ∉ map fst items.
Proof.
  induction items as [|[k0 v0] items IH]; simpl; intros H Hin.
  - inversion Hin.
  - destruct (str_eq k0 u) eqn:Hk; [discriminate |].
    apply elem_of_cons in Hin as [Heq | Hin]; [| exact (IH H Hin)].
    subst k0. rewrite str_eq_refl in Hk. discriminate.
Qed.

Lemma dict_find_app_none u items more :
  dict_find u (items ++ more) = None ->
  dict_find u items = None /\ dict_find u more = None.
Proof.
  intros H. destruct (dict_find u items) as [v|] eqn:Hf.
  - rewrite (dict_find_app_l _ _ more _ Hf) in H. discriminate.
  - rewrite (dict_find_app_r _ _ more Hf) in H. auto.
Qed.

(** The invariant behind the next theorem, for a run over a suffix of
    [all]. *)
Lemma loop_appends cfg e U all h0 uitems n0 src :
  forall s s',
    incl src all ->
    length h0 <= length (st_heap s) ->
    (exists added,
       st_heap s !! U = Some (ODict (uitems ++ added)) /\
       (U ∉ refs_of (uitems ++ added)) /\
       length added + n0 = new_users s /\
       appended all h0 uitems added) ->
    sync_loop cfg e (VRef U) src s = Ok s' ->
    exists added,
      st_heap s' !! U = Some (ODict (uitems ++ added)) /\
      (U ∉ refs_of (uitems ++ added)) /\
      length added + n0 = new_users s' /\
      appended all h0 uitems added.
Proof.
  induction src as [|x src IH]; intros s s' Hincl Hlen Hinv Hrun.
  - simpl in Hrun. inversion Hrun; subst. exact Hinv.
  - simpl in Hrun. destruct (sync_one cfg e (VRef U) x s) as [s1|] eqn:Hstep; [| discriminate].
    cbn [bind] in Hrun.
    assert (Hincl' : incl src all) by (intros y Hy; apply Hincl; right; exact Hy).
    destruct Hinv as (added & HU & HnU & Hcount & Hnd & Hall).
    pose proof (lookup_in_store _ _ _ HU) as HUlt.
    apply sync_one_ok in Hstep as [-> | [Hv [H | H]]].
    + apply (IH s s' Hincl' Hlen); [| exact Hrun]. exists added. repeat split; assumption.
    + destruct H as (U' & uitems' & r & ritems & HU' & HUd & Hfind & Hr & ->).
      inversion HU'; subst U'. rewrite HU in HUd. inversion HUd; subst uitems'.
      assert (HrU : r <> U).
      { intros ->. apply HnU. eapply dict_find_ref. exact Hfind. }
      eapply IH; [exact Hincl' | | | exact Hrun].
      * unfold updated_state. cbn [st_heap]. rewrite length_insert. exact Hlen.
      * exists added. unfold updated_state. cbn [st_heap new_users].
        rewrite list_lookup_insert_ne by exact HrU. repeat split; assumption.
    + destruct H as (U' & uitems' & encoded & HU' & HUd & Hfind & ->).
      inversion HU'; subst U'. rewrite HU in HUd. inversion HUd; subst uitems'.
      apply dict_find_app_none in Hfind as [Hfind0 Hfind1].
      eapply IH; [exact Hincl' | | | exact Hrun].
      * unfold created_state. cbn [st_heap]. rewrite length_insert, !length_app. simpl. lia.
      * exists (added ++ [(VStr (fst x), VRef (S (length (st_heap s))))]).
        unfold created_state. cbn [st_heap new_users]. rewrite app_assoc.
        split; [apply list_lookup_insert_eq; rewrite !length_app; simpl; lia |].
        split; [| split; [| split]].
        -- rewrite refs_of_app. simpl. intros Hin.
           apply elem_of_app in Hin as [Hin | Hin]; [exact (HnU Hin) |].
           apply list_elem_of_singleton in Hin. lia.
        -- rewrite length_app. simpl. lia.
        -- rewrite map_app. simpl. apply NoDup_app. split; [exact Hnd |].
           split; [| apply NoDup_singleton].
           intros k Hk Hk'. apply list_elem_of_singleton in Hk'. subst k.
           exact (dict_find_none_key _ _ Hfind1 Hk).
        -- apply Forall_app. split; [exact Hall |].
           constructor; [| constructor].
           exists (fst x), (S (length (st_heap s))). split; [reflexivity |].
           split; [| split; [exact Hfind0 | lia]].
           apply in_map. apply filter_In. split; [| exact Hv].
           apply Hincl. left. reflexivity.
Qed.

(** X10. When no record of the users mapping is the mapping itself,
    the loop only appends to the mapping: the entries it had keep their
    place and their records (no user is removed or rebound), and after
    them comes one entry per created user, for a valid source username
    that was not a key, bound to a new record, no username twice; the
    number of appended entries is the number of created users. *)
Theorem mapping_only_grows cfg e U src s s' uitems :
  st_heap s !! U = Some (ODict uitems) ->
  U ∉ refs_of uitems ->
  sync_loop cfg e (VRef U) src s = Ok s' ->
  exists added,
    st_heap s' !! U = Some (ODict (uitems ++ added)) /\
    length added + new_users s = new_users s' /\
    appended src (st_heap s) uitems added.
Proof.
  intros HU HnU Hrun.
  destruct (loop_appends cfg e U src (st_heap s) uitems (new_users s) src s s')
    as (added & H1 & _ & H2 & H3); try assumption.
  - intros y Hy. exact Hy.
  - reflexivity.
  - exists []. rewrite app_nil_r. repeat split; try assumption; constructor.
  - exists added. auto.
Qed.

Lemma mapping_only_grows_witness :
  exists s' added,
    sync_loop sample_cfg sample_env (VRef 0)
      [("alice", "alice@example.com"); ("bob", "new@x.com")]
      (start (bob_store "old@x.com")) = Ok s' /\
    st_heap s' !! 0 = Some (ODict ([(VStr "bob", VRef 1)] ++ added)) /\
    length added + 0 = new_users s'.
Proof.
  destruct (mapping_only_grows sample_cfg sample_env 0
              [("alice", "alice@example.com"); ("bob", "new@x.com")]
              (start (bob_store "old@x.com"))
              {| st_heap :=
                   [ODict [(VStr "bob", VRef 1); (VStr "alice", VRef 4)];
                    ODict [(VStr "displayname", VStr "Bob");
                           (VStr "password", VStr sample_hash);
                           (VStr "email", VStr "new@x.com"); (VStr "groups", VRef 2)];
                    OList [VStr "plex_users"];
                    OList [VStr "plex_users"];
                    new_record "alice" sample_hash "alice@example.com" 3];
                 new_users := 1; updated_users := 1; cursor := 32 |}
              [(VStr "bob", VRef 1)])
    as (added & H1 & H2 & _).
  - reflexivity.
  - intros H. apply list_elem_of_singleton in H. discriminate H.
  - vm_compute. reflexivity.
  - eexists _, added. split; [vm_compute; reflexivity |]. split; assumption.
Defined.

Lemma sync_one_raises cfg e au x s ex :
  sync_one cfg e au x s = Raise ex ->
  ex = HashingError \/ ex = AttributeError \/ ex = TypeError.
Proof.
  destruct x as [u em]. intros Hstep.
  destruct (valid_user (u, em)) eqn:Hv.
  2:{ rewrite (sync_one_invalid _ _ _ _ _ Hv) in Hstep. discriminate. }
  pose proof Hv as Hv'. unfold valid_user in Hv'. cbn [fst snd] in Hv'.
  apply andb_true_iff in Hv' as [Hu Hem].
  destruct au as [| b | z | str | U].
  1-4: unfold sync_one in Hstep; cbn [fst snd] in Hstep;
       rewrite Hu, Hem in Hstep; cbn [negb py_contains bind] in Hstep;
       try (inversion Hstep; auto).
  - clear H0. destruct (is_substring u str); cbn [bind py_getitem] in Hstep;
      [inversion Hstep; auto |].
    destruct (generate_password e 16 (cursor s)) as [password c1].
    unfold hash_password in Hstep.
    destruct (argon2id e password _); cbn [bind alloc py_setitem] in Hstep;
      inversion Hstep; auto.
  - destruct (st_heap s !! U) as [[uitems | litems]|] eqn:HU.
    + rewrite (sync_one_cases cfg e s U uitems u em Hv HU) in Hstep.
      destruct (dict_find u uitems) as [v|].
      * destruct v as [| | | | r]; try (inversion Hstep; auto).
        destruct (st_heap s !! r) as [[ritems|]|]; try (inversion Hstep; auto).
        destruct (str_eq (stored_email ritems) em); discriminate.
      * destruct (argon2id e _ _); inversion Hstep; auto.
    + unfold sync_one in Hstep. cbn [fst snd] in Hstep.
      rewrite Hu, Hem in Hstep. cbn [negb] in Hstep.
      unfold py_contains, py_getitem in Hstep. rewrite HU in Hstep.
      destruct (existsb _ litems); cbn [bind] in Hstep; [inversion Hstep; auto |].
      destruct (generate_password e 16 (cursor s)) as [password c1].
      unfold hash_password in Hstep.
      destruct (argon2id e password _); cbn [bind alloc] in Hstep;
        [| inversion Hstep; auto].
      unfold py_setitem in Hstep.
      rewrite !lookup_app_l in Hstep
        by (rewrite ?length_app; apply lookup_lt_Some in HU; simpl; lia).
      rewrite HU in Hstep. inversion Hstep; auto.
    + unfold sync_one in Hstep. cbn [fst snd] in Hstep.
      rewrite Hu, Hem in Hstep. cbn [negb] in Hstep.
      unfold py_contains in Hstep. rewrite HU in Hstep. inversion Hstep; auto.
Qed.

Lemma sync_loop_raises cfg e au src :
  forall s ex,
    sync_loop cfg e au src s = Raise ex ->
    ex = HashingError \/ ex = AttributeError \/ ex = TypeError.
Proof.
  induction src as [|x src IH]; intros s ex; simpl; [discriminate |].
  destruct (sync_one cfg e au x s) as [s1|ex1] eqn:Hstep; cbn [bind].
  - apply IH.
  - intros H. inversion H; subst. eapply sync_one_raises. exact Hstep.
Qed.

(** X11. A pass never raises [KeyError]: the lookup
    [authelia_users[username]] is only made after [username in
    authelia_users] held.  What a pass raises is a hashing failure, or
    the [AttributeError] or [TypeError] of a target document that is not
    made of mappings. *)
Theorem pass_exceptions cfg e w ex :
  fst (sync_users cfg e w) = Raise ex ->
  ex = HashingError \/ ex = AttributeError \/ ex = TypeError.
Proof.
  unfold sync_users, sync_loaded.
  destruct (load_authelia_users w) as [h0 data]. cbn [alloc].
  destruct (py_get _ data "users" _) as [au|ex0] eqn:Hget.
  - destruct (get_wizarr_users w) as [|x0 src0]; [discriminate |].
    destruct (sync_loop cfg e au (x0 :: src0) _) as [s|ex1] eqn:Hloop.
    + destruct (Nat.ltb 0 (new_users s) || Nat.ltb 0 (updated_users s)); [| discriminate].
      destruct (py_setitem (st_heap s) data "users" au) as [h|ex2] eqn:Hset.
      * destruct (restart_authelia_container cfg e _). discriminate.
      * cbn [fst]. intros H. inversion H; subst.
        unfold py_setitem in Hset.
        destruct data; try (inversion Hset; auto).
        destruct (st_heap s !! l) as [[|]|]; inversion Hset; auto.
    + cbn [fst]. intros H. inversion H; subst. eapply sync_loop_raises. exact Hloop.
  - cbn [fst]. intros H. inversion H; subst. unfold py_get in Hget.
    destruct data; try (inversion Hget; auto).
    destruct (_ !! l) as [[items|]|]; try (inversion Hget; auto).
    destruct (dict_find "users" items); discriminate.
Qed.

Lemma pass_exceptions_witness :
  AttributeError = HashingError \/ AttributeError = AttributeError \/
  AttributeError = TypeError.
Proof.
  apply (pass_exceptions sample_cfg sample_env
           {| wizarr_db := DbMissing; users_file := FParsed [OList [VStr "alice"]] (VRef 0);
              writes := 0; restarts := 0 |}).
  reflexivity.
Defined.

End Effects.

(** ** What a pass does to the world *)

Module Passes.
Import Store Step Loop Mapping Pass.

(** The four ways a pass ends. *)
Lemma pass_cases cfg e w :
  (exists ex, sync_users cfg e w = (Raise ex, w)) \/
  sync_users cfg e w = (Ok NothingToSync, w) \/
  sync_users cfg e w = (Ok NoChanges, w) \/
  exists n u h data,
    0 < n + u /\
    sync_users cfg e w =
      (Ok (Synced n u (fst (save_and_restart cfg e h data w))),
       snd (save_and_restart cfg e h data w)).
Proof.
  unfold sync_users, sync_loaded.
  destruct (load_authelia_users w) as [h0 data]. cbn [alloc].
  destruct (py_get _ data "users" _) as [au|ex]; [| left; eauto].
  destruct (get_wizarr_users w) as [|x0 src0]; [right; left; reflexivity |].
  destruct (sync_loop cfg e au (x0 :: src0) _) as [s|ex]; [| left; eauto].
  destruct (Nat.ltb 0 (new_users s) || Nat.ltb 0 (updated_users s)) eqn:Hchg;
    [| right; right; left; reflexivity].
  destruct (py_setitem (st_heap s) data "users" au) as [h|ex]; [| left; eauto].
  right. right. right. exists (new_users s), (updated_users s), h, data.
  split.
  - apply orb_true_iff in Hchg as [H | H]; apply Nat.ltb_lt in H; lia.
  - unfold save_and_restart.
    destruct (restart_authelia_container cfg e _). reflexivity.
Qed.

Lemma save_and_restart_dry cfg e h data w :
  dry_run cfg = true -> snd (save_and_restart cfg e h data w) = w.
Proof.
  intros Hdry. unfold save_and_restart, save_authelia_users, restart_authelia_container.
  rewrite Hdry. reflexivity.
Qed.

Lemma dry_run_pass cfg e w : dry_run cfg = true -> snd (sync_users cfg e w) = w.
Proof.
  intros Hdry.
  destruct (pass_cases cfg e w) as [[ex H] | [H | [H | (n & u & h & data & _ & H)]]];
    rewrite H; cbn [snd]; try reflexivity.
  apply save_and_restart_dry. exact Hdry.
Qed.

(** X12. In dry-run mode a pass leaves the world as it is, however it
    ends: the users file is not written and the container is not
    restarted. *)
Theorem dry_run_changes_nothing cfg e w :
  dry_run cfg = true -> snd (sync_users cfg e w) = w.
Proof. apply dry_run_pass. Qed.

Lemma dry_run_changes_nothing_witness :
  fst (sync_users
         {| default_group := "plex_users"; dry_run := true;
            restart_authelia := true; sync_interval := 0 |}
         sample_env (world_of [("alice", Some "alice@example.com")] FMissing))
    = Ok (Synced 1 0 true) /\
  snd (sync_users
         {| default_group := "plex_users"; dry_run := true;
            restart_authelia := true; sync_interval := 0 |}
         sample_env (world_of [("alice", Some "alice@example.com")] FMissing))
    = world_of [("alice", Some "alice@example.com")] FMissing.
Proof.
  split; [reflexivity |].
  apply (dry_run_changes_nothing
           {| default_group := "plex_users"; dry_run := true;
              restart_authelia := true; sync_interval := 0 |}).
  reflexivity.
Defined.

Lemma save_and_restart_effects cfg e h data w :
  dry_run cfg = false ->
  let r := save_and_restart cfg e h data w in
  wizarr_db (snd r) = wizarr_db w /\
  writes (snd r) = S (writes w) /\
  restarts (snd r) = (if restart_authelia cfg then S (restarts w) else restarts w) /\
  fst r = (negb (restart_authelia cfg) || docker_ok e) /\
  users_file (snd r) = match write_failure e with
                       | None => FParsed h data
                       | Some left_as => left_as
                       end.
Proof.
  intros Hdry. unfold save_and_restart, save_authelia_users, restart_authelia_container,
    docker_ok. rewrite Hdry.
  destruct (restart_authelia cfg); cbn [negb orb]; [| repeat split; reflexivity].
  destruct (docker e); repeat split; reflexivity.
Qed.

(** X13. A pass attempts at most one write of the users file and at
    most one restart, and a restart only after a write was attempted; as
    long as no write was attempted the users file is what it was. *)
Theorem pass_writes_then_restarts cfg e w :
  (writes (snd (sync_users cfg e w)) = writes w \/
   writes (snd (sync_users cfg e w)) = S (writes w)) /\
  (restarts (snd (sync_users cfg e w)) = restarts w \/
   restarts (snd (sync_users cfg e w)) = S (restarts w) /\
   writes (snd (sync_users cfg e w)) = S (writes w)) /\
  (writes (snd (sync_users cfg e w)) = writes w ->
   users_file (snd (sync_users cfg e w)) = users_file w).
Proof.
  destruct (pass_cases cfg e w) as [[ex H] | [H | [H | (n & u & h & data & _ & H)]]];
    rewrite H; cbn [snd]; [repeat split; auto .. |].
  destruct (dry_run cfg) eqn:Hdry.
  - rewrite (save_and_restart_dry cfg e h data w Hdry). repeat split; auto.
  - destruct (save_and_restart_effects cfg e h data w Hdry) as (_ & Hw & Hr & _ & _).
    rewrite Hw, Hr. split; [auto |]. split; [| intros Habs; lia].
    destruct (restart_authelia cfg); auto.
Qed.

(** X14. A pass that found changes and is no dry run attempts the
    write once and then the restart, unless restarts are disabled,
    whether or not the write succeeded; it reports success of the restart
    exactly when restarts are disabled or docker exits with 0; and a
    failed restart or write raises nothing.  After a failed write the
    users file is what the failed write left. *)
Theorem changes_are_saved_then_restarted cfg e w n u ok w' :
  dry_run cfg = false ->
  sync_users cfg e w = (Ok (Synced n u ok), w') ->
  0 < n + u /\
  writes w' = S (writes w) /\
  restarts w' = (if restart_authelia cfg then S (restarts w) else restarts w) /\
  ok = (negb (restart_authelia cfg) || docker_ok e) /\
  (forall left_as, write_failure e = Some left_as -> users_file w' = left_as) /\
  (write_failure e = None -> exists h data, users_file w' = FParsed h data).
Proof.
  intros Hdry Hpass.
  destruct (pass_cases cfg e w) as [[ex H] | [H | [H | (n0 & u0 & h & data & Hpos & H)]]];
    rewrite H in Hpass; try discriminate.
  destruct (save_and_restart_effects cfg e h data w Hdry) as (_ & Hw & Hr & Hok & Hfile).
  inversion Hpass; subst. split; [exact Hpos |]. split; [exact Hw |].
  split; [exact Hr |]. split; [exact Hok |]. rewrite Hfile. split.
  - intros left_as Hfail. rewrite Hfail. reflexivity.
  - intros Hnone. rewrite Hnone. eauto.
Qed.

Lemma changes_are_saved_then_restarted_witness :
  restarts
    (snd (sync_users sample_cfg
            {| entropy := fun i => i; argon2id := fun _ _ => Some sample_hash;
               write_failure := Some FMissing; docker := DockerTimeout |}
            (world_of [("alice", Some "alice@example.com")] FMissing))) = 1 /\
  users_file
    (snd (sync_users sample_cfg
            {| entropy := fun i => i; argon2id := fun _ _ => Some sample_hash;
               write_failure := Some FMissing; docker := DockerTimeout |}
            (world_of [("alice", Some "alice@example.com")] FMissing))) = FMissing.
Proof.
  destruct (changes_are_saved_then_restarted sample_cfg
              {| entropy := fun i => i; argon2id := fun _ _ => Some sample_hash;
                 write_failure := Some FMissing; docker := DockerTimeout |}
              (world_of [("alice", Some "alice@example.com")] FMissing)
              1 0 false
              (snd (sync_users sample_cfg
                      {| entropy := fun i => i; argon2id := fun _ _ => Some sample_hash;
                         write_failure := Some FMissing; docker := DockerTimeout |}
                      (world_of [("alice", Some "alice@example.com")] FMissing))))
    as (_ & _ & Hr & _ & Hf & _); [reflexivity | reflexivity |].
  split; [exact Hr | apply Hf; reflexivity].
Defined.

(** X15. Whatever a pass raises, it leaves the world as it was: the
    users file is written and the container restarted only by a pass that
    returns. *)
Theorem exception_leaves_world cfg e w ex w' :
  sync_users cfg e w = (Raise ex, w') -> w' = w.
Proof. apply raise_leaves_world. Qed.

Lemma exception_leaves_world_witness :
  snd (sync_users sample_cfg sample_env
         {| wizarr_db := DbMissing; users_file := FParsed [OList [VStr "alice"]] (VRef 0);
            writes := 0; restarts := 0 |})
  = {| wizarr_db := DbMissing; users_file := FParsed [OList [VStr "alice"]] (VRef 0);
       writes := 0; restarts := 0 |}.
Proof.
  apply (exception_leaves_world sample_cfg sample_env _ AttributeError). reflexivity.
Defined.

Lemma dict_set_nonempty k v items : dict_set k v items <> [].
Proof.
  destruct items as [|[k0 v0] items]; simpl; [discriminate |].
  destruct (str_eq k0 k); discriminate.
Qed.

(** The second of two passes over an unchanged source, the first having
    written the file. *)
Lemma second_pass cfg e e2 w h D ditems U uitems n u ok w1 :
  load_authelia_users w = (h, VRef D) ->
  h !! D = Some (ODict ditems) ->
  match dict_find "users" ditems with
  | Some v => v
  | None => VRef (length h)
  end = VRef U ->
  (h ++ [ODict []]) !! U = Some (ODict uitems) ->
  D <> U ->
  D ∉ refs_of uitems ->
  separate (h ++ [ODict []]) U uitems ->
  consistent (get_wizarr_users w) ->
  dry_run cfg = false ->
  write_failure e = None ->
  sync_users cfg e w = (Ok (Synced n u ok), w1) ->
  sync_users cfg e2 w1 = (Ok NoChanges, w1).
Proof.
  intros Hload HD Husers HU HDU HDrefs Hsep Hcons Hdry Hwrite Hpass.
  pose proof (lookup_in_store _ _ _ HD) as HDlt.
  unfold sync_users in Hpass. rewrite Hload in Hpass.
  unfold sync_loaded in Hpass. cbn [alloc] in Hpass.
  assert (Hget : py_get (h ++ [ODict []]) (VRef D) "users" (VRef (length h)) = Ok (VRef U)).
  { unfold py_get. rewrite lookup_alloc_old by exact HDlt. rewrite HD.
    destruct (dict_find "users" ditems); rewrite Husers; reflexivity. }
  rewrite Hget in Hpass.
  destruct (get_wizarr_users w) as [|x0 src0] eqn:Hsrc; [discriminate |].
  set (h1 := h ++ [ODict []]) in *.
  assert (Hlen1 : length h1 = S (length h)) by (unfold h1; rewrite length_app; simpl; lia).
  fold (start h1) in Hpass.
  destruct (sync_loop cfg e (VRef U) (x0 :: src0) (start h1)) as [s|] eqn:Hloop;
    [| discriminate].
  (* what the first loop leaves *)
  assert (Hfr0 : framed h1 U (refs_of uitems) (start h1)).
  { split; [reflexivity |]. split; [exists uitems; auto | reflexivity]. }
  pose proof (Frame.loop_framed cfg e h1 U (refs_of uitems) _ _ _ Hfr0 Hloop)
    as (Hgrow & (uitems1 & HU1 & Hrefs1) & Hsame).
  destruct (Idempotence.first_run_syncs cfg e U (x0 :: src0) [] (start h1) s uitems
              HU Hsep Hcons (fun y (Hy : In y []) => match Hy with end) Hloop)
    as (uitems1' & HU1' & Hsync).
  rewrite HU1 in HU1'. inversion HU1'; subst uitems1'. clear HU1'.
  assert (HDs : st_heap s !! D = Some (ODict ditems)).
  { rewrite Hsame; try assumption; [| lia].
    unfold h1. rewrite lookup_alloc_old by exact HDlt. exact HD. }
  destruct (Nat.ltb 0 (new_users s) || Nat.ltb 0 (updated_users s)); [| discriminate].
  unfold py_setitem in Hpass. rewrite HDs in Hpass.
  set (h2 := <[D := ODict (dict_set "users" (VRef U) ditems)]> (st_heap s)) in *.
  change (restart_authelia_container cfg e (save_authelia_users cfg e h2 (VRef D) w))
    with (save_and_restart cfg e h2 (VRef D) w) in Hpass.
  destruct (save_and_restart_effects cfg e h2 (VRef D) w Hdry) as (Hdb & _ & _ & _ & Hfile).
  rewrite Hwrite in Hfile.
  destruct (save_and_restart cfg e h2 (VRef D) w) as [ok2 w2].
  cbn [fst snd] in Hdb, Hfile. inversion Hpass; subst. clear Hpass.
  (* the second pass *)
  assert (HDs_lt : D < length (st_heap s)) by (eapply lookup_in_store; exact HDs).
  assert (HD2 : h2 !! D = Some (ODict (dict_set "users" (VRef U) ditems))).
  { unfold h2. apply list_lookup_insert_eq. exact HDs_lt. }
  assert (Hother : forall l, l <> D -> h2 !! l = st_heap s !! l).
  { intros l Hl. unfold h2. apply list_lookup_insert_ne. congruence. }
  unfold sync_users, load_authelia_users. rewrite Hfile.
  assert (Htruthy : truthy h2 (VRef D) = true).
  { unfold truthy. rewrite HD2.
    destruct (dict_set "users" (VRef U) ditems) eqn:Hset; [| reflexivity].
    exfalso. exact (dict_set_nonempty _ _ _ Hset). }
  rewrite Htruthy. unfold sync_loaded. cbn [alloc].
  assert (Hsrc2 : get_wizarr_users w1 = x0 :: src0).
  { unfold get_wizarr_users in *. rewrite Hdb. exact Hsrc. }
  rewrite Hsrc2.
  assert (Hlen2 : length h2 = length (st_heap s)) by (unfold h2; apply length_insert).
  unfold py_get. rewrite lookup_alloc_old by lia. rewrite HD2, dict_find_set_eq.
  fold (start (h2 ++ [ODict []])).
  rewrite (Idempotence.in_sync_run_is_noop cfg e2 U (x0 :: src0)
             (start (h2 ++ [ODict []])) uitems1).
  - reflexivity.
  - cbn [start st_heap]. pose proof (lookup_in_store _ _ _ HU1).
    rewrite lookup_alloc_old by lia. rewrite Hother by congruence. exact HU1.
  - intros y Hy Hv. destruct (Hsync y Hy Hv) as (r & ritems & Hf & Hr & He).
    exists r, ritems. split; [exact Hf |]. split; [| exact He].
    cbn [start st_heap]. pose proof (lookup_in_store _ _ _ Hr).
    rewrite lookup_alloc_old by lia. rewrite Hother; [exact Hr |].
    intros ->. destruct (Hrefs1 D (dict_find_ref _ _ _ Hf)) as [Hin | Hge].
    + exact (HDrefs Hin).
    + lia.
Qed.

(** X16. After a pass that wrote the users file, the next pass over
    the same source finds nothing to do: it reports no changes and leaves
    the world as it is, whatever its random draws.  (Preconditions: the
    loaded document and its users entry are mappings, the records are
    separate objects that are not the document, valid source entries
    agree on the email of each username, and the write succeeded.) *)
Theorem next_pass_is_noop cfg e e2 w h D ditems U uitems n u ok w1 :
  load_authelia_users w = (h, VRef D) ->
  h !! D = Some (ODict ditems) ->
  match dict_find "users" ditems with
  | Some v => v
  | None => VRef (length h)
  end = VRef U ->
  (h ++ [ODict []]) !! U = Some (ODict uitems) ->
  D <> U ->
  D ∉ refs_of uitems ->
  separate (h ++ [ODict []]) U uitems ->
  consistent (get_wizarr_users w) ->
  dry_run cfg = false ->
  write_failure e = None ->
  sync_users cfg e w = (Ok (Synced n u ok), w1) ->
  sync_users cfg e2 w1 = (Ok NoChanges, w1).
Proof. apply second_pass. Qed.

End Passes.

(** ** Start-up and the drivers *)

Module Drivers.
Import Store Step Loop Mapping Pass.

Lemma next_pass_is_noop_witness :
  sync_users sample_cfg sample_env
    (snd (sync_users sample_cfg sample_env
            (world_of [("alice", Some "alice@example.com"); ("bob", Some "new@x.com")]
                      (bob_file "old@x.com"))))
  = (Ok NoChanges,
     snd (sync_users sample_cfg sample_env
            (world_of [("alice", Some "alice@example.com"); ("bob", Some "new@x.com")]
                      (bob_file "old@x.com")))).
Proof.
  apply (Passes.next_pass_is_noop sample_cfg sample_env sample_env
           (world_of [("alice", Some "alice@example.com"); ("bob", Some "new@x.com")]
                     (bob_file "old@x.com"))
           (bob_store "old@x.com" ++ [ODict [(VStr "users", VRef 0)]])
           3 [(VStr "users", VRef 0)] 0 [(VStr "bob", VRef 1)] 1 1 true).
  - reflexivity.
  - reflexivity.
  - reflexivity.
  - reflexivity.
  - discriminate.
  - intros H. apply list_elem_of_singleton in H. discriminate H.
  - split; [apply NoDup_singleton |]. split.
    + intros H. apply list_elem_of_singleton in H. discriminate H.
    + repeat constructor.
  - intros u e1 e2 H1 H2 _ _. simpl in H1, H2.
    destruct H1 as [H1 | [H1 | []]]; destruct H2 as [H2 | [H2 | []]]; congruence.
  - reflexivity.
  - reflexivity.
  - reflexivity.
Defined.

Lemma periodic_running cfg envs :
  (0 < sync_interval cfg)%Z ->
  forall w, fst (periodic cfg envs w) = None.
Proof.
  intros Hpos. apply Z.ltb_lt in Hpos.
  induction envs as [|e envs IH]; intros w; [reflexivity |].
  simpl. rewrite Hpos. destruct (sync_users cfg e w) as [[r|ex] w']; apply IH.
Qed.

(** X17. In periodic mode a pass that raises neither ends the process
    nor changes the world: the driver goes on with the next pass as if
    the failed one had not run, and the process does not exit. *)
Theorem periodic_survives_failure cfg e later w ex :
  (0 < sync_interval cfg)%Z ->
  fst (sync_users cfg e w) = Raise ex ->
  main cfg e later w = periodic cfg later w /\
  fst (main cfg e later w) = None.
Proof.
  intros Hpos Hfail. pose proof Hpos as Hlt. apply Z.ltb_lt in Hlt.
  assert (Hmain : main cfg e later w = periodic cfg later w).
  { unfold main. rewrite Hlt. cbn [periodic].
    destruct (sync_users cfg e w) as [[r|ex'] w'] eqn:Hpass; [discriminate |].
    rewrite Hlt. apply raise_leaves_world in Hpass. subst w'. reflexivity. }
  split; [exact Hmain |]. rewrite Hmain. apply periodic_running. exact Hpos.
Qed.

Lemma periodic_survives_failure_witness :
  main {| default_group := "plex_users"; dry_run := false;
          restart_authelia := true; sync_interval := 60 |}
       failing_env [sample_env]
       (world_of [("alice", Some "alice@example.com"); ("bob", Some "bob@x.com")] FMissing)
  = periodic {| default_group := "plex_users"; dry_run := false;
                restart_authelia := true; sync_interval := 60 |}
       [sample_env]
       (world_of [("alice", Some "alice@example.com"); ("bob", Some "bob@x.com")] FMissing).
Proof.
  apply (periodic_survives_failure
           {| default_group := "plex_users"; dry_run := false;
              restart_authelia := true; sync_interval := 60 |}
           failing_env [sample_env] _ HashingError); reflexivity.
Defined.

(** X18. In periodic mode, once a pass has written the users file, the
    passes after it change nothing as long as the source stays the same:
    the world after any number of further passes is the world the writing
    pass left.  (Preconditions as for two passes in a row.) *)
Theorem periodic_settles cfg e later w h D ditems U uitems n u ok w1 :
  (0 < sync_interval cfg)%Z ->
  load_authelia_users w = (h, VRef D) ->
  h !! D = Some (ODict ditems) ->
  match dict_find "users" ditems with
  | Some v => v
  | None => VRef (length h)
  end = VRef U ->
  (h ++ [ODict []]) !! U = Some (ODict uitems) ->
  D <> U ->
  D ∉ refs_of uitems ->
  separate (h ++ [ODict []]) U uitems ->
  consistent (get_wizarr_users w) ->
  dry_run cfg = false ->
  write_failure e = None ->
  sync_users cfg e w = (Ok (Synced n u ok), w1) ->
  main cfg e later w = (None, w1).
Proof.
  intros Hpos Hload HD Husers HU HDU HDrefs Hsep Hcons Hdry Hwrite Hpass.
  assert (Hnext : forall e2, sync_users cfg e2 w1 = (Ok NoChanges, w1)).
  { intros e2. eapply Passes.second_pass; eassumption. }
  apply Z.ltb_lt in Hpos. unfold main. rewrite Hpos. cbn [periodic].
  rewrite Hpass, Hpos. clear Hpass.
  induction later as [|e2 later IH]; [reflexivity |].
  cbn [periodic]. rewrite Hnext, Hpos. exact IH.
Qed.

Lemma periodic_settles_witness :
  main {| default_group := "plex_users"; dry_run := false;
          restart_authelia := true; sync_interval := 60 |}
       sample_env [sample_env; sample_env]
       (world_of [("alice", Some "alice@example.com"); ("bob", Some "new@x.com")]
                 (bob_file "old@x.com"))
  = (None,
     snd (sync_users
            {| default_group := "plex_users"; dry_run := false;
               restart_authelia := true; sync_interval := 60 |}
            sample_env
            (world_of [("alice", Some "alice@example.com"); ("bob", Some "new@x.com")]
                      (bob_file "old@x.com")))).
Proof.
  apply (periodic_settles
           {| default_group := "plex_users"; dry_run := false;
              restart_authelia := true; sync_interval := 60 |}
           sample_env [sample_env; sample_env]
           (world_of [("alice", Some "alice@example.com"); ("bob", Some "new@x.com")]
                     (bob_file "old@x.com"))
           (bob_store "old@x.com" ++ [ODict [(VStr "users", VRef 0)]])
           3 [(VStr "users", VRef 0)] 0 [(VStr "bob", VRef 1)] 1 1 true).
  - reflexivity.
  - reflexivity.
  - reflexivity.
  - reflexivity.
  - reflexivity.
  - discriminate.
  - intros H. apply list_elem_of_singleton in H. discriminate H.
  - split; [apply NoDup_singleton |]. split.
    + intros H. apply list_elem_of_singleton in H. discriminate H.
    + repeat constructor.
  - intros u e1 e2 H1 H2 _ _. simpl in H1, H2.
    destruct H1 as [H1 | [H1 | []]]; destruct H2 as [H2 | [H2 | []]]; congruence.
  - reflexivity.
  - reflexivity.
  - reflexivity.
Defined.

Lemma periodic_dry cfg envs :
  dry_run cfg = true -> forall w, snd (periodic cfg envs w) = w.
Proof.
  intros Hdry. induction envs as [|e envs IH]; intros w; [reflexivity |].
  cbn [periodic]. pose proof (Passes.dry_run_pass cfg e w Hdry) as Hsame.
  destruct (sync_users cfg e w) as [[r|ex] w']; cbn [snd] in Hsame; subst w';
    destruct (Z.ltb 0 (sync_interval cfg)); try apply IH; reflexivity.
Qed.

(** X19. When the process is started with [DRY_RUN] set to [true] in
    any letter case, it never writes the users file and never restarts
    the container, in single-run and in periodic mode alike. *)
Theorem dry_run_from_environment environ int_of cfg e later w :
  init environ int_of = Some cfg ->
  lower (getenv environ "DRY_RUN" "false") = "true" ->
  snd (main cfg e later w) = w.
Proof.
  intros Hinit Hflag.
  assert (Hdry : dry_run cfg = true).
  { unfold init in Hinit. destruct (int_of _); [| discriminate].
    inversion Hinit. cbn [dry_run]. rewrite Hflag. reflexivity. }
  unfold main. destruct (Z.ltb 0 (sync_interval cfg)).
  - apply periodic_dry. exact Hdry.
  - unfold main_once. pose proof (Passes.dry_run_pass cfg e w Hdry) as Hsame.
    destruct (sync_users cfg e w) as [[r|ex] w']; exact Hsame.
Qed.

Lemma dry_run_from_environment_witness :
  exists cfg,
    init dry_environ sample_int = Some cfg /\
    snd (main cfg sample_env [] (world_of [("alice", Some "alice@example.com")] FMissing))
    = world_of [("alice", Some "alice@example.com")] FMissing.
Proof.
  eexists. split; [reflexivity |].
  apply (dry_run_from_environment dry_environ sample_int); reflexivity.
Defined.

(** X20. [load_authelia_users] returns the parsed document itself
    whenever the file parses to a truthy document; when the file parses
    to a falsy document (an empty file, [{}], [[]], [0], ...) it returns a
    fresh [{'users': {}}] built beside the parsed objects, and when the
    file is missing, unreadable or malformed a fresh [{'users': {}}].  So
    it never returns a falsy document. *)
Theorem load_returns_truthy w :
  truthy (fst (load_authelia_users w)) (snd (load_authelia_users w)) = true /\
  (forall h data,
     users_file w = FParsed h data -> truthy h data = true ->
     load_authelia_users w = (h, data)) /\
  (forall h data,
     users_file w = FParsed h data -> truthy h data = false ->
     load_authelia_users w = empty_store h) /\
  (users_file w = FMissing \/ users_file w = FUnreadable \/ users_file w = FMalformed ->
   load_authelia_users w = empty_store []) /\
  (forall h,
     reify 2 (fst (empty_store h)) (snd (empty_store h)) = TDict [(TStr "users", TDict [])] /\
     forall l, l < length h -> fst (empty_store h) !! l = h !! l).
Proof.
  assert (Hempty : forall h, truthy (fst (empty_store h)) (snd (empty_store h)) = true).
  { intros h. unfold empty_store. cbn [alloc fst snd truthy].
    rewrite lookup_alloc_new. reflexivity. }
  split; [| split; [| split; [| split]]].
  - unfold load_authelia_users.
    destruct (users_file w) as [| | | h data]; try apply Hempty.
    destruct (truthy h data) eqn:Ht; [exact Ht | apply Hempty].
  - intros h data Hfile Ht. unfold load_authelia_users. rewrite Hfile, Ht. reflexivity.
  - intros h data Hfile Ht. unfold load_authelia_users. rewrite Hfile, Ht. reflexivity.
  - intros Hfile. unfold load_authelia_users.
    destruct Hfile as [-> | [-> | ->]]; reflexivity.
  - intros h. unfold empty_store. cbn [alloc fst snd]. split.
    + cbn [reify]. rewrite lookup_alloc_new. cbn [map fst snd reify].
      rewrite lookup_alloc_old by (rewrite length_app; simpl; lia).
      rewrite lookup_alloc_new. reflexivity.
    + intros l Hl. rewrite !lookup_app_l by (rewrite ?length_app; simpl; lia).
      reflexivity.
Qed.

End Drivers.

(** ** The passwords handed to the log *)

Module Logged.
Import Store Step Loop.

(** The step with its log call is the step. *)
Lemma sync_one_logged_fst cfg e au x s :
  fst (sync_one_logged cfg e au x s) = sync_one cfg e au x s.
Proof.
  unfold sync_one_logged, sync_one.
  destruct (negb (validate_username (fst x))); [reflexivity |].
  destruct (negb (validate_email (snd x))); [reflexivity |].
  destruct (py_contains (st_heap s) au (fst x)) as [[|]|]; cbn [bind fst]; try reflexivity.
  destruct (generate_password e 16 (cursor s)) as [password c1].
  destruct (hash_password e password c1) as [[password_hash c2]|]; cbn [bind alloc fst];
    [| reflexivity].
  match goal with
  | |- context [py_setitem ?h2 au (fst x) ?v] => destruct (py_setitem h2 au (fst x) v)
  end; reflexivity.
Qed.

Lemma sync_loop_logged_fst cfg e au src :
  forall s, fst (sync_loop_logged cfg e au src s) = sync_loop cfg e au src s.
Proof.
  induction src as [|x src IH]; intros s; [reflexivity |].
  cbn [sync_loop_logged sync_loop]. rewrite <- sync_one_logged_fst.
  destruct (sync_one_logged cfg e au x s) as [[s1|ex] calls]; cbn [fst bind].
  - rewrite <- IH. destruct (sync_loop_logged cfg e au src s1). reflexivity.
  - reflexivity.
Qed.

(** What a step hands to [_log_password_securely]: nothing, or the
    username of the user it created with the password it generated. *)
Lemma sync_one_logged_calls cfg e au x s r calls :
  sync_one_logged cfg e au x s = (r, calls) ->
  calls = [] /\ (forall s', r = Ok s' -> new_users s' = new_users s) \/
  valid_user x = true /\
  calls = [(fst x, fst (generate_password e 16 (cursor s)))] /\
  exists s', r = Ok s' /\ new_users s' = new_users s + 1.
Proof.
  unfold sync_one_logged, valid_user.
  destruct (validate_username (fst x)); cbn [negb andb];
    [| intros H; inversion H; left; split; [reflexivity | intros s' Hs; inversion Hs; reflexivity]].
  destruct (validate_email (snd x)); cbn [negb];
    [| intros H; inversion H; left; split; [reflexivity | intros s' Hs; inversion Hs; reflexivity]].
  destruct (py_contains (st_heap s) au (fst x)) as [[|]|].
  - intros H. inversion H. left. split; [reflexivity |].
    intros s' Hs. clear H.
    destruct (py_getitem (st_heap s) au (fst x)) as [record|]; cbn [bind] in Hs;
      [| discriminate].
    destruct (py_get (st_heap s) record "email" (VStr "")) as [cur|]; cbn [bind] in Hs;
      [| discriminate].
    destruct (negb (str_eq cur (snd x))); [| inversion Hs; reflexivity].
    destruct (py_setitem (st_heap s) record "email" (VStr (snd x))); cbn [bind] in Hs;
      inversion Hs. reflexivity.
  - destruct (generate_password e 16 (cursor s)) as [password c1]. cbn [fst].
    destruct (hash_password e password c1) as [[password_hash c2]|]; cbn [alloc].
    + match goal with
      | |- context [py_setitem ?h2 au (fst x) ?v] => destruct (py_setitem h2 au (fst x) v)
      end.
      * intros H. inversion H. right. split; [reflexivity |]. split; [reflexivity |].
        eexists. split; reflexivity.
      * intros H. inversion H. left. split; [reflexivity | discriminate].
    + intros H. inversion H. left. split; [reflexivity | discriminate].
  - intros H. inversion H. left. split; [reflexivity | discriminate].
Qed.

(** A step reads 32 draws when it makes a log call, none otherwise. *)
Lemma sync_one_logged_cursor cfg e au x s s1 c1 :
  sync_one_logged cfg e au x s = (Ok s1, c1) ->
  cursor s1 = cursor s + 32 * length c1.
Proof.
  unfold sync_one_logged.
  destruct (negb (validate_username (fst x)));
    [intros H; inversion H; simpl; lia |].
  destruct (negb (validate_email (snd x)));
    [intros H; inversion H; simpl; lia |].
  destruct (py_contains (st_heap s) au (fst x)) as [[|]|]; [| | discriminate].
  - intros H. inversion H as [[Hs Hc]]. clear H. simpl. rewrite Nat.add_0_r.
    destruct (py_getitem (st_heap s) au (fst x)) as [record|]; cbn [bind] in Hs;
      [| discriminate].
    destruct (py_get (st_heap s) record "email" (VStr "")) as [cur|]; cbn [bind] in Hs;
      [| discriminate].
    destruct (negb (str_eq cur (snd x))); [| inversion Hs; reflexivity].
    destruct (py_setitem (st_heap s) record "email" (VStr (snd x))); cbn [bind] in Hs;
      inversion Hs. reflexivity.
  - change (generate_password e 16 (cursor s))
      with (password_at e (cursor s), cursor s + 16).
    cbv beta iota. unfold hash_password.
    destruct (argon2id e _ _) as [encoded|]; [| discriminate]. cbn [alloc].
    match goal with
    | |- context [py_setitem ?h2 au (fst x) ?v] => destruct (py_setitem h2 au (fst x) v)
    end; [| discriminate].
    intros H. inversion H. simpl. lia.
Qed.

(** What a step that returns does to a users mapping none of whose
    records is the mapping itself: it appends the entry of the user it
    makes a log call for, and nothing else. *)
Lemma sync_one_logged_mapping cfg e U x s s1 c1 items :
  sync_one_logged cfg e (VRef U) x s = (Ok s1, c1) ->
  st_heap s !! U = Some (ODict items) ->
  U ∉ refs_of items ->
  exists more,
    st_heap s1 !! U = Some (ODict (items ++ more)) /\
    (U ∉ refs_of (items ++ more)) /\
    map fst more = map (fun c => VStr (fst c)) c1 /\
    Forall (fun c => dict_find (fst c) items = None) c1.
Proof.
  intros Hstep HU HnU.
  pose proof (lookup_in_store _ _ _ HU) as HUlt.
  pose proof (sync_one_logged_fst cfg e (VRef U) x s) as Hfst.
  rewrite Hstep in Hfst. cbn [fst] in Hfst. symmetry in Hfst.
  apply sync_one_logged_calls in Hstep
    as [[-> Hnew] | (_ & -> & s1' & Hs1 & Hnew)].
  - specialize (Hnew s1 eq_refl).
    assert (Hsame : st_heap s1 !! U = Some (ODict items)).
    { apply Effects.sync_one_ok in Hfst as [-> | [_ [H | H]]].
      - exact HU.
      - destruct H as (U' & uitems' & r & ritems & HU' & HUd & Hfind & Hr & ->).
        inversion HU'; subst U'. rewrite HU in HUd. inversion HUd; subst uitems'.
        unfold updated_state. cbn [st_heap].
        rewrite list_lookup_insert_ne; [exact HU |].
        intros ->. apply HnU. eapply Mapping.dict_find_ref. exact Hfind.
      - destruct H as (U' & uitems' & encoded & _ & _ & _ & ->).
        unfold created_state in Hnew. cbn [new_users] in Hnew. lia. }
    exists []. rewrite app_nil_r.
    split; [exact Hsame |]. split; [exact HnU |]. split; [reflexivity | constructor].
  - inversion Hs1; subst s1'. clear Hs1.
    apply Effects.sync_one_ok in Hfst as [-> | [_ [H | H]]]; [lia | |].
    + destruct H as (U' & uitems' & r & ritems & _ & _ & _ & _ & ->).
      unfold updated_state in Hnew. cbn [new_users] in Hnew. lia.
    + destruct H as (U' & uitems' & encoded & HU' & HUd & Hfind & ->).
      inversion HU'; subst U'. rewrite HU in HUd. inversion HUd; subst uitems'.
      exists [(VStr (fst x), VRef (S (length (st_heap s))))].
      unfold created_state. cbn [st_heap].
      split; [apply list_lookup_insert_eq; rewrite !length_app; simpl; lia |].
      split; [| split; [reflexivity | constructor; [exact Hfind | constructor]]].
      rewrite Mapping.refs_of_app. simpl. intros Hin.
      apply elem_of_app in Hin as [Hin | Hin]; [exact (HnU Hin) |].
      apply list_elem_of_singleton in Hin. lia.
Qed.

(** X21. When the loop returns, [_log_password_securely] was called
    exactly once per created user and for nobody else.  The calls are as
    many as the users created; the [i]-th call carries the plaintext
    generated for the [i]-th created user, the 16 alphabet characters
    selected by the draws from position [32 * i] on after the starting
    position (every creation reads 32 draws, nothing else reads any); and
    each call names a valid source username.  When the target is a
    mapping none of whose records is the mapping itself, the usernames of
    the calls are, in order, exactly the keys the loop appended to the
    mapping, none of which was a key before: a user who was only updated
    or skipped gets no call. *)
Theorem one_log_call_per_created_user cfg e au src s s' calls :
  sync_loop_logged cfg e au src s = (Ok s', calls) ->
  length calls + new_users s = new_users s' /\
  cursor s' = cursor s + 32 * length calls /\
  map snd calls =
    map (fun i => drawn_password (entropy e) (cursor s + 32 * i)) (seq 0 (length calls)) /\
  Forall (fun c =>
            In (fst c) (map fst (List.filter valid_user src)) /\
            String.length (snd c) = 16 /\
            Forall (fun ch => In ch (list_ascii_of_string alphabet))
                   (list_ascii_of_string (snd c)))
         calls /\
  (forall U uitems,
     au = VRef U ->
     st_heap s !! U = Some (ODict uitems) ->
     U ∉ refs_of uitems ->
     exists added,
       st_heap s' !! U = Some (ODict (uitems ++ added)) /\
       map fst added = map (fun c => VStr (fst c)) calls /\
       Forall (fun c => dict_find (fst c) uitems = None) calls).
Proof.
  revert s calls. induction src as [|x src IH]; intros s calls Hrun.
  - simpl in Hrun. inversion Hrun. subst s' calls.
    split; [reflexivity |]. split; [simpl; lia |]. split; [reflexivity |].
    split; [constructor |].
    intros U uitems _ HU _. exists []. rewrite app_nil_r.
    split; [exact HU |]. split; [reflexivity | constructor].
  - cbn [sync_loop_logged] in Hrun.
    destruct (sync_one_logged cfg e au x s) as [[s1|ex] c1] eqn:Hstep; [| discriminate].
    destruct (sync_loop_logged cfg e au src s1) as [r later] eqn:Hrest.
    inversion Hrun; subst. clear Hrun.
    destruct (IH s1 later Hrest) as (Hcount & Hcur & Hpw & Hall & Hmap).
    pose proof (sync_one_logged_cursor _ _ _ _ _ _ _ Hstep) as Hcur1.
    assert (Hweaken : Forall (fun c =>
              In (fst c) (map fst (List.filter valid_user (x :: src))) /\
              String.length (snd c) = 16 /\
              Forall (fun ch => In ch (list_ascii_of_string alphabet))
                     (list_ascii_of_string (snd c))) later).
    { eapply Forall_impl; [exact Hall |]. cbn beta. intros c (Hin & Hlen & Hchars).
      split; [| auto]. cbn [List.filter]. destruct (valid_user x); [right |]; exact Hin. }
    assert (Hkeys : forall U uitems,
              au = VRef U -> st_heap s !! U = Some (ODict uitems) -> U ∉ refs_of uitems ->
              exists added,
                st_heap s' !! U = Some (ODict (uitems ++ added)) /\
                map fst added = map (fun c => VStr (fst c)) (c1 ++ later) /\
                Forall (fun c => dict_find (fst c) uitems = None) (c1 ++ later)).
    { intros U uitems -> HU HnU.
      destruct (sync_one_logged_mapping _ _ _ _ _ _ _ _ Hstep HU HnU)
        as (more & HU1 & HnU1 & Hmore & Hnone1).
      destruct (Hmap U (uitems ++ more) eq_refl HU1 HnU1) as (added & HU' & Hadded & Hnone).
      exists (more ++ added). rewrite app_assoc.
      split; [exact HU' |].
      split; [rewrite !map_app, Hmore, Hadded; reflexivity |].
      apply Forall_app. split; [exact Hnone1 |].
      eapply Forall_impl; [exact Hnone |]. cbn beta. intros c Hc.
      apply Effects.dict_find_app_none in Hc. apply Hc. }
    pose proof Hstep as Hcalls.
    apply sync_one_logged_calls in Hcalls as [[Hc1 Hnew] | (Hv & Hc1 & s1' & Hs1 & Hnew)];
      subst c1.
    + rewrite (Hnew s1 eq_refl) in Hcount. simpl in Hcur1. rewrite Nat.add_0_r in Hcur1.
      rewrite Hcur1 in Hcur, Hpw. cbn [app].
      split; [exact Hcount |]. split; [exact Hcur |]. split; [exact Hpw |].
      split; [exact Hweaken | exact Hkeys].
    + inversion Hs1; subst s1'. simpl in Hcur1.
      split; [simpl; lia |]. split; [simpl; lia |].
      split.
      { cbn [app map snd length seq]. f_equal.
        - rewrite Nat.mul_0_r, Nat.add_0_r. apply Creation.password_at_drawn.
        - rewrite Hpw, <- seq_shift, map_map. apply map_ext. intros i.
          f_equal. lia. }
      split; [| exact Hkeys].
      constructor; [| exact Hweaken]. cbn [fst snd]. split.
      * cbn [List.filter]. rewrite Hv. left. reflexivity.
      * destruct (Passwords.generate_password_facts e 16 (cursor s)) as (Hlen & Hchars & _).
        split; [exact Hlen | exact Hchars].
Qed.

Lemma one_log_call_per_created_user_witness :
  exists s' calls added,
    sync_loop_logged sample_cfg sample_env (VRef 0)
      [("alice", "alice@example.com"); ("bob", "new@x.com")]
      (start (bob_store "old@x.com")) = (Ok s', calls) /\
    calls = [("alice", "abcdefghijklmnop")] /\
    length calls + 0 = new_users s' /\
    st_heap s' !! 0 = Some (ODict ([(VStr "bob", VRef 1)] ++ added)) /\
    map fst added = map (fun c => VStr (fst c)) calls.
Proof.
  destruct (sync_loop_logged sample_cfg sample_env (VRef 0)
              [("alice", "alice@example.com"); ("bob", "new@x.com")]
              (start (bob_store "old@x.com"))) as [[s' | ex] calls] eqn:Hrun.
  - destruct (one_log_call_per_created_user _ _ _ _ _ _ _ Hrun)
      as (Hcount & _ & _ & _ & Hmap).
    destruct (Hmap 0 [(VStr "bob", VRef 1)] eq_refl eq_refl) as (added & HU & Hkeys & _).
    { intros H. apply list_elem_of_singleton in H. discriminate H. }
    exists s', calls, added. split; [reflexivity |].
    split; [vm_compute in Hrun; congruence |].
    split; [exact Hcount |]. split; [exact HU | exact Hkeys].
  - vm_compute in Hrun. discriminate Hrun.
Defined.

Lemma sync_loop_logged_app cfg e au l1 l2 :
  forall s s1 c1,
    sync_loop_logged cfg e au l1 s = (Ok s1, c1) ->
    sync_loop_logged cfg e au (l1 ++ l2) s =
    (fst (sync_loop_logged cfg e au l2 s1), c1 ++ snd (sync_loop_logged cfg e au l2 s1)).
Proof.
  induction l1 as [|x l1 IH]; intros s s1 c1 Hrun.
  - simpl in Hrun. inversion Hrun; subst. simpl.
    destruct (sync_loop_logged cfg e au l2 s1). reflexivity.
  - cbn [sync_loop_logged app] in *.
    destruct (sync_one_logged cfg e au x s) as [[s0|ex] c0]; [| discriminate].
    destruct (sync_loop_logged cfg e au l1 s0) as [r later] eqn:Hrest.
    inversion Hrun; subst. rewrite (IH s0 s1 later Hrest).
    rewrite app_assoc. reflexivity.
Qed.

(** X22. When the loop raises at some user, the passwords it generated
    for the users created before were already handed to
    [_log_password_securely], although the pass then aborts without
    writing these users: the calls of the aborted run are exactly the
    calls for the users before the failing one. *)
Theorem logged_before_failure cfg e au before x after s s1 calls ex :
  sync_loop_logged cfg e au before s = (Ok s1, calls) ->
  sync_one cfg e au x s1 = Raise ex ->
  sync_loop_logged cfg e au (before ++ x :: after) s = (Raise ex, calls).
Proof.
  intros Hbefore Hfail. rewrite (sync_loop_logged_app _ _ _ _ _ _ _ _ Hbefore).
  cbn [sync_loop_logged]. rewrite <- sync_one_logged_fst in Hfail.
  destruct (sync_one_logged cfg e au x s1) as [r c] eqn:Hstep. cbn [fst] in Hfail. subst r.
  apply sync_one_logged_calls in Hstep as [[-> _] | (_ & _ & s' & Hs & _)]; [| discriminate].
  cbn [fst snd]. rewrite app_nil_r. reflexivity.
Qed.

Lemma logged_before_failure_witness :
  sync_loop_logged sample_cfg failing_env (VRef 0)
    ([("alice", "alice@example.com")] ++ ("bob", "bob@x.com") :: [])
    (start [ODict []])
  = (Raise HashingError, [("alice", "abcdefghijklmnop")]).
Proof.
  eapply (logged_before_failure sample_cfg failing_env (VRef 0)
            [("alice", "alice@example.com")] ("bob", "bob@x.com") []).
  - vm_compute. reflexivity.
  - vm_compute. reflexivity.
Defined.

End Logged.
